(** * go-netconf: the RPC message lifecycle

    A shallow embedding of the NETCONF client's RPC layer (package
    [netconf]): request envelope construction, message identifiers, reply
    decoding and error classification, and the credential adapters.

    Go strings and byte slices are [string] (a sequence of 8-bit [ascii]
    bytes).  A Go pointer that may be nil is an [option].  A run-time panic
    is an explicit outcome of the [exec] monad. *)

From Stdlib Require Import List String Ascii NArith Arith Bool Lia.
From Equations Require Import Equations.
Import ListNotations.

#[local] Set Warnings "-register-all".

Open Scope string_scope.
Open Scope list_scope.

Infix "+++" := String.append (right associativity, at level 60).

(** ** Strings and small list helpers *)

(** The one-character string holding a double quote. *)
Definition Q : string := String (ascii_of_nat 34) "".

Fixpoint concatStrings (l : list string) : string :=
  match l with
  | [] => ""
  | s :: r => s +++ concatStrings r
  end.

(** [strings.HasPrefix] and [strings.HasSuffix]. *)
Definition HasPrefix (s p : string) : bool := String.prefix p s.

Definition HasSuffix (s p : string) : bool :=
  let n := String.length s in
  let k := String.length p in
  Nat.leb k n && String.eqb (String.substring (n - k) k s) p.

(** [strings.IndexByte]: [None] stands for -1. *)
Fixpoint IndexByte (s : string) (c : ascii) : option nat :=
  match s with
  | EmptyString => None
  | String a r =>
      if Ascii.eqb a c then Some 0
      else match IndexByte r c with
           | Some i => Some (S i)
           | None => None
           end
  end.

Definition listEqb {A} (eqb : A -> A -> bool) : list A -> list A -> bool :=
  fix go (l1 l2 : list A) : bool :=
    match l1, l2 with
    | [], [] => true
    | x :: r1, y :: r2 => eqb x y && go r1 r2
    | _, _ => false
    end.

Lemma listEqb_nat_spec (l1 l2 : list nat) :
  listEqb Nat.eqb l1 l2 = true <-> l1 = l2.
Proof.
  revert l2; induction l1 as [|x r1 IH]; intros [|y r2]; simpl;
    try (split; [discriminate | discriminate]); try tauto.
  rewrite andb_true_iff, Nat.eqb_eq, IH.
  split; [intros [-> ->]; reflexivity | intros H; injection H; auto].
Qed.

(** ** Outcomes of a Go call: a normal return or a panic *)

Inductive panic (E : Type) : Type :=
| NilDereference                       (* method call through a nil pointer *)
| IndexOutOfRange (index len : nat)    (* s[i] with i >= len(s) *)
| PanicValue (e : E).                  (* panic(e) *)
Arguments NilDereference {E}.
Arguments IndexOutOfRange {E} index len.
Arguments PanicValue {E} e.

Inductive exec (E A : Type) : Type :=
| Return (a : A)
| Panicked (p : panic E).
Arguments Return {E A} a.
Arguments Panicked {E A} p.

Definition bind {E A B} (m : exec E A) (k : A -> exec E B) : exec E B :=
  match m with
  | Return a => k a
  | Panicked p => Panicked p
  end.

Notation "x <- m ;; k" := (bind m (fun x => k))
  (at level 61, m at next level, right associativity).

(** [p.m()] on a pointer [p]: a nil receiver whose method reads a field
    panics. *)
Definition deref {E A} (p : option A) : exec E A :=
  match p with
  | Some a => Return a
  | None => Panicked NilDereference
  end.

(** [s[i]] on a slice. *)
Definition index {E A} (s : list A) (i : nat) : exec E A :=
  match nth_error s i with
  | Some a => Return a
  | None => Panicked (IndexOutOfRange i (List.length s))
  end.

(** ** The document tree of github.com/beevik/etree

    The client reads and rewrites replies through etree.  The part of the
    library the client calls is modelled here: the token tree, element
    pointers, path compilation for paths without filters, path traversal,
    [ChildElements], [Text] and [SetRoot]. *)

Module etree.

Record Attr := { AttrSpace : string; AttrKey : string; AttrValue : string }.

(** A token is an element, character data, a comment, a directive or a
    processing instruction; only elements have children. *)
Inductive Token :=
| ElementToken (space tag : string) (attr : list Attr) (child : list Token)
| CharDataToken (data : string)
| CommentToken (data : string)
| DirectiveToken (data : string)
| ProcInstToken (target inst : string).

Record Element := {
  Space : string;
  Tag : string;
  Attrs : list Attr;
  Child : list Token
}.

(** The type assertion of a token to an element. *)
Definition asElement (t : Token) : option Element :=
  match t with
  | ElementToken s g a c => Some {| Space := s; Tag := g; Attrs := a; Child := c |}
  | _ => None
  end.

Definition toToken (e : Element) : Token :=
  ElementToken (Space e) (Tag e) (Attrs e) (Child e).

(** A document embeds an element with empty space and tag whose children
    are the top-level tokens. *)
Record Document := { docChild : list Token }.

Definition NewDocument : Document := {| docChild := [] |}.

Definition docElement (d : Document) : Element :=
  {| Space := ""; Tag := ""; Attrs := []; Child := docChild d |}.

(** *** Element pointers

    An [*Element] inside a tree is identified by its position: the child
    indices leading to it from the element that has no parent.  A [node]
    carries the position together with the element found there; a
    possibly-nil [*Element] is an [option node]. *)

Definition ptr := list nat.

Record node := { pos : ptr; elt : Element }.

Definition ptr_eqb : ptr -> ptr -> bool := listEqb Nat.eqb.

Fixpoint lookup (top : Element) (p : ptr) : option Element :=
  match p with
  | [] => Some top
  | i :: r =>
      match nth_error (Child top) i with
      | Some t =>
          match asElement t with
          | Some e => lookup e r
          | None => None
          end
      | None => None
      end
  end.

(** The element children of the element at [p], whose tokens [ch] start
    at index [i]. *)
Fixpoint childNodesFrom (p : ptr) (i : nat) (ch : list Token) : list node :=
  match ch with
  | [] => []
  | t :: r =>
      match asElement t with
      | Some e => {| pos := p ++ [i]; elt := e |} :: childNodesFrom p (S i) r
      | None => childNodesFrom p (S i) r
      end
  end.

Definition childNodes (n : node) : list node :=
  childNodesFrom (pos n) 0 (Child (elt n)).

(** [Element.ChildElements]: the slice holds one non-nil pointer per
    element child. *)
Definition ChildElements (e : node) : list (option node) :=
  map Some (childNodes e).

(** [Element.Text]: the character data that starts the element's
    children. *)
Fixpoint leadingCharData (ch : list Token) : string :=
  match ch with
  | CharDataToken d :: r => d +++ leadingCharData r
  | _ => ""
  end.

Definition Text (e : node) : string := leadingCharData (Child (elt e)).

(** *** Sizes, for the breadth-first walk *)

Fixpoint tokenSize (t : Token) : nat :=
  match t with
  | ElementToken _ _ _ ch => S (list_sum (map tokenSize ch))
  | _ => 0
  end.

Definition elementSize (e : Element) : nat :=
  S (list_sum (map tokenSize (Child e))).

Definition queueSize (q : list node) : nat :=
  list_sum (map (fun n => elementSize (elt n)) q).

Lemma tokenSize_asElement t e :
  asElement t = Some e -> tokenSize t = elementSize e.
Proof. destruct t; simpl; intros H; inversion H; reflexivity. Qed.

Lemma queueSize_app q1 q2 : queueSize (q1 ++ q2) = queueSize q1 + queueSize q2.
Proof. unfold queueSize. rewrite map_app, list_sum_app. reflexivity. Qed.

Lemma queueSize_childNodesFrom p i ch :
  queueSize (childNodesFrom p i ch) = list_sum (map tokenSize ch).
Proof.
  revert i; induction ch as [|t r IH]; intros i; simpl; [reflexivity|].
  destruct (asElement t) as [e|] eqn:E.
  - unfold queueSize in *. simpl. rewrite IH.
    rewrite (tokenSize_asElement _ _ E). reflexivity.
  - rewrite IH. destruct t; simpl in *; try discriminate; reflexivity.
Qed.

Lemma queueSize_childNodes n : S (queueSize (childNodes n)) = elementSize (elt n).
Proof. unfold childNodes. rewrite queueSize_childNodesFrom. reflexivity. Qed.

(** *** Selectors

    [selectDescendants] walks the subtree with a FIFO queue: the element
    at the head is a candidate and its element children join the tail. *)

Equations? descendants (queue : list node) : list node by wf (queueSize queue) lt :=
  descendants [] := [];
  descendants (e :: q) := e :: descendants (q ++ childNodes e).
Proof.
  pose proof (queueSize_childNodesFrom (pos e) 0 (Child (elt e))) as Hsz.
  fold (childNodes e) in Hsz.
  rewrite queueSize_app. unfold queueSize in *. simpl in *. lia.
Qed.

Inductive selector :=
| selectRoot
| selectSelf
| selectParent
| selectChildren
| selectDescendants
| selectChildrenByTag (space tag : string).

(** [spaceMatch]: an empty space in the path matches every space. *)
Definition spaceMatch (a b : string) : bool :=
  match a with
  | "" => true
  | _ => String.eqb a b
  end.

Definition apply (top : Element) (s : selector) (e : node) : list node :=
  match s with
  | selectRoot => [ {| pos := []; elt := top |} ]
  | selectSelf => [e]
  | selectParent =>
      match pos e with
      | [] => []
      | _ => match lookup top (removelast (pos e)) with
             | Some par => [ {| pos := removelast (pos e); elt := par |} ]
             | None => []
             end
      end
  | selectChildren => childNodes e
  | selectDescendants => descendants [e]
  | selectChildrenByTag space tag =>
      filter (fun c => spaceMatch space (Space (elt c)) && String.eqb tag (Tag (elt c)))
             (childNodes e)
  end.

(** *** Paths

    A compiled path is its list of segments.  Segment filters (the
    bracketed suffixes) are left out: no path of the client has one. *)

Definition Path := list selector.

(** [splitPath]: cut at every slash outside quotes. *)
Fixpoint splitPathFrom (path : string) (inquote : bool) (piece : string) : list string :=
  match path with
  | EmptyString => [piece]
  | String c r =>
      if Ascii.eqb c "'" then splitPathFrom r (negb inquote) (piece +++ String c "")
      else if Ascii.eqb c "/" && negb inquote then piece :: splitPathFrom r inquote ""
      else splitPathFrom r inquote (piece +++ String c "")
  end.

Definition splitPath (path : string) : list string := splitPathFrom path false "".

Definition spaceDecompose (str : string) : string * string :=
  match IndexByte str ":" with
  | None => ("", str)
  | Some colon =>
      (String.substring 0 colon str,
       String.substring (S colon) (String.length str - S colon) str)
  end.

Definition parseSelector (path : string) : selector :=
  if String.eqb path "." then selectSelf
  else if String.eqb path ".." then selectParent
  else if String.eqb path "*" then selectChildren
  else if String.eqb path "" then selectDescendants
  else let (space, tag) := spaceDecompose path in selectChildrenByTag space tag.

Definition parsePath (path : string) : Path :=
  let path := if HasSuffix path "//" then path +++ "*" else path in
  if HasPrefix path "/"
  then selectRoot :: map parseSelector (splitPath (String.substring 1 (String.length path - 1) path))
  else map parseSelector (splitPath path).

Definition MustCompilePath (path : string) : Path := parsePath path.

(** *** Traversal

    The pather keeps a FIFO queue of (element, remaining segments).  All
    queued entries with [k] segments left are evaluated before any with
    [k-1], so the walk goes segment by segment over the candidates of the
    segment before; the candidates of the last segment become results,
    each pointer once. *)

Fixpoint addResults (candidates results : list node) : list node :=
  match candidates with
  | [] => results
  | c :: r =>
      if existsb (fun x => ptr_eqb (pos x) (pos c)) results
      then addResults r results
      else addResults r (results ++ [c])
  end.

Fixpoint eval (top : Element) (segments : Path) (queue : list node) : list node :=
  match segments with
  | [] => []
  | [seg] => addResults (flat_map (apply top seg) queue) []
  | seg :: remain => eval top remain (flat_map (apply top seg) queue)
  end.

Definition traverse (top : Element) (e : node) (path : Path) : list node :=
  eval top path [e].

Definition FindElementsPath (top : Element) (e : node) (path : Path) : list node :=
  traverse top e path.

Definition FindElementPath (top : Element) (e : node) (path : Path) : option node :=
  match traverse top e path with
  | first :: _ => Some first
  | [] => None
  end.

(** [e.FindElement(path)] and [e.FindElements(path)] for an element [e]
    of the tree under [top]. *)
Definition FindElement (top : Element) (e : node) (path : string) : option node :=
  FindElementPath top e (MustCompilePath path).

Definition FindElements (top : Element) (e : node) (path : string) : list node :=
  FindElementsPath top e (MustCompilePath path).

(** The same through a document's embedded element. *)
Definition docNode (d : Document) : node := {| pos := []; elt := docElement d |}.

Definition DocFindElement (d : Document) (path : string) : option node :=
  FindElement (docElement d) (docNode d) path.

Definition DocFindElements (d : Document) (path : string) : list node :=
  FindElements (docElement d) (docNode d) path.

(** *** SetRoot

    [d.SetRoot(e)] unbinds [e] from its parent, then puts it in the place
    of the document's first element child, or appends it when the document
    has no element child. *)

Fixpoint removeAt (ch : list Token) (p : ptr) : list Token :=
  match p with
  | [] => ch
  | [i] => firstn i ch ++ skipn (S i) ch
  | i :: r =>
      match nth_error ch i with
      | Some (ElementToken s g a c) =>
          firstn i ch ++ ElementToken s g a (removeAt c r) :: skipn (S i) ch
      | _ => ch
      end
  end.

Fixpoint replaceRoot (ch : list Token) (e : Token) : list Token :=
  match ch with
  | [] => [e]
  | ElementToken _ _ _ _ :: r => e :: r
  | t :: r => t :: replaceRoot r e
  end.

Definition SetRoot (d : Document) (e : node) : Document :=
  {| docChild := replaceRoot (removeAt (docChild d) (pos e)) (toToken (elt e)) |}.

End etree.

(** ** Errors of the client

    A Go [error] value is one of: an error of the reply reader (etree and
    encoding/xml), an error built by [fmt.Errorf], a reported RPC error
    (the type [*RPCError] implements [error]), a transport error, or an
    error of the SSH key loader. *)

Record RPCError := {
  Type_ : string;
  Tag : string;
  Severity : string;
  Path : string;
  Message : string
}.

Inductive error :=
| ReadError (msg : string)
| Errorf (msg : string)
| RPCErr (re : RPCError)
| TransportError (msg : string)
| KeyError (msg : string).

(** ** unicode/utf8 and the attribute escaping of encoding/xml *)

Module utf8.

Local Open Scope N_scope.

Definition RuneError : N := 65533.

(** The table [first]: information about the first byte of an encoding.
    [as_] is ASCII, [xx] is invalid; otherwise the low three bits give the
    size and the high four bits the index into [acceptRanges]. *)
Definition xx : N := 241.
Definition as_ : N := 240.

Definition first (b : N) : N :=
  if b <? 128 then as_
  else if b <? 194 then xx
  else if b <? 224 then 2        (* s1 *)
  else if b =? 224 then 19       (* s2 *)
  else if b <? 237 then 3        (* s3 *)
  else if b =? 237 then 35       (* s4 *)
  else if b <? 240 then 3        (* s3 *)
  else if b =? 240 then 52       (* s5 *)
  else if b <? 244 then 4        (* s6 *)
  else if b =? 244 then 68       (* s7 *)
  else xx.

Definition locb : N := 128.
Definition hicb : N := 191.

Definition acceptRanges (i : N) : N * N :=
  if i =? 0 then (locb, hicb)
  else if i =? 1 then (160, hicb)
  else if i =? 2 then (locb, 159)
  else if i =? 3 then (144, hicb)
  else if i =? 4 then (locb, 143)
  else (0, 0).

Definition byteAt (s : string) (i : nat) : N :=
  match String.get i s with
  | Some c => N_of_ascii c
  | None => 0
  end.

Definition outside (b lo hi : N) : bool := (b <? lo) || (hi <? b).

Definition DecodeRuneInString (s : string) : N * nat :=
  let n := String.length s in
  if Nat.ltb n 1%nat then (RuneError, 0%nat)
  else
    let s0 := byteAt s 0%nat in
    let x := first s0 in
    if as_ <=? x then
      (if x =? xx then RuneError else s0, 1%nat)
    else
      let sz := N.to_nat (N.land x 7) in
      let '(lo, hi) := acceptRanges (N.shiftr x 4) in
      if Nat.ltb n sz then (RuneError, 1%nat)
      else
        let s1 := byteAt s 1%nat in
        if outside s1 lo hi then (RuneError, 1%nat)
        else if Nat.leb sz 2%nat then
          (N.lor (N.shiftl (N.land s0 31) 6) (N.land s1 63), 2%nat)
        else
          let s2 := byteAt s 2%nat in
          if outside s2 locb hicb then (RuneError, 1%nat)
          else if Nat.leb sz 3%nat then
            (N.lor (N.lor (N.shiftl (N.land s0 15) 12) (N.shiftl (N.land s1 63) 6))
                   (N.land s2 63), 3%nat)
          else
            let s3 := byteAt s 3%nat in
            if outside s3 locb hicb then (RuneError, 1%nat)
            else
              (N.lor (N.lor (N.lor (N.shiftl (N.land s0 7) 18) (N.shiftl (N.land s1 63) 12))
                            (N.shiftl (N.land s2 63) 6))
                     (N.land s3 63), 4%nat).

End utf8.

Module xml.

Local Open Scope N_scope.

(** [xml.Header]; it ends with a line feed. *)
Definition Header : string :=
  "<?xml version=" +++ Q +++ "1.0" +++ Q +++ " encoding=" +++ Q +++ "UTF-8" +++ Q
    +++ "?>" +++ String (ascii_of_nat 10) "".

Record Name := { NameSpace : string; Local : string }.

(** An attribute of the request: its name has no namespace. *)
Record Attr := { AttrName : string; Value : string }.

Record StartElement := { SName : Name; SAttr : list Attr }.

(** [isInCharacterRange]: the Char production of the XML recommendation. *)
Definition isInCharacterRange (r : N) : bool :=
  (r =? 9) || (r =? 10) || (r =? 13)
  || ((32 <=? r) && (r <=? 55295))
  || ((57344 <=? r) && (r <=? 65533))
  || ((65536 <=? r) && (r <=? 1114111)).

Definition escFFFD : string :=
  String (ascii_of_nat 239) (String (ascii_of_nat 191) (String (ascii_of_nat 189) "")).

(** The replacement text chosen for a decoded rune, if any. *)
Definition escapeOf (r : N) (width : nat) : option string :=
  if r =? 34 then Some "&#34;"
  else if r =? 39 then Some "&#39;"
  else if r =? 38 then Some "&amp;"
  else if r =? 60 then Some "&lt;"
  else if r =? 62 then Some "&gt;"
  else if r =? 9 then Some "&#x9;"
  else if r =? 10 then Some "&#xA;"
  else if r =? 13 then Some "&#xD;"
  else if negb (isInCharacterRange r) || ((r =? 65533) && Nat.eqb width 1%nat)
       then Some escFFFD
       else None.

(** [EscapeString]: the loop decodes one rune at a time; a rune that is
    kept has its [width] bytes copied, a rune that is replaced has them
    dropped.  [pending] counts the bytes of the current rune still to
    pass and [keep] tells which of the two applies to them. *)
Fixpoint escapeFrom (s : string) (pending : nat) (keep : bool) : string :=
  match s with
  | EmptyString => ""
  | String c rest =>
      match pending with
      | S k => if keep then String c (escapeFrom rest k keep) else escapeFrom rest k keep
      | O =>
          let '(r, width) := utf8.DecodeRuneInString s in
          match escapeOf r width with
          | Some esc => esc +++ escapeFrom rest (width - 1)%nat false
          | None => String c (escapeFrom rest (width - 1)%nat true)
          end
      end
  end.

Definition EscapeString (s : string) : string := escapeFrom s 0 true.

(** The printer is its output buffer. *)
Definition printer := string.

Fixpoint writeAttrs (p : printer) (attrs : list Attr) : printer :=
  match attrs with
  | [] => p
  | attr :: r =>
      if String.eqb (AttrName attr) "" then writeAttrs p r
      else writeAttrs (p +++ " " +++ AttrName attr +++ "=" +++ Q
                         +++ EscapeString (Value attr) +++ Q) r
  end.

Definition writeStart (p : printer) (start : StartElement) : printer * option error :=
  if String.eqb (Local (SName start)) "" then
    (p, Some (Errorf "xml: start tag with no name"))
  else
    let p := p +++ "<" +++ Local (SName start) in
    let p := if String.eqb (NameSpace (SName start)) "" then p
             else p +++ " xmlns=" +++ Q
                    +++ EscapeString (NameSpace (SName start)) +++ Q in
    let p := writeAttrs p (SAttr start) in
    (p +++ ">", None).

Definition writeEnd (p : printer) (name : Name) : printer * option error :=
  if String.eqb (Local name) "" then
    (p, Some (Errorf "xml: end tag with no name"))
  else (p +++ "</" +++ Local name +++ ">", None).

(** The start element [Marshal] hands to a [Marshaler]: named after the
    Go type, without attributes. *)
Definition defaultStart (typeName : string) : StartElement :=
  {| SName := {| NameSpace := ""; Local := typeName |}; SAttr := [] |}.

End xml.

(** ** RPC methods *)

(** The interface [RPCMethod]: a value of any type with a [MarshalMethod]. *)
Class RPCMethodImpl (T : Type) := { MarshalMethod : T -> string }.

Record RPCMethod := {
  methodType : Type;
  methodImpl : RPCMethodImpl methodType;
  methodValue : methodType
}.

Definition asMethod {T} `{RPCMethodImpl T} (v : T) : RPCMethod :=
  {| methodType := T; methodImpl := _; methodValue := v |}.

Definition marshalMethod (m : RPCMethod) : string :=
  @MarshalMethod (methodType m) (methodImpl m) (methodValue m).

(** [type RawMethod string]. *)
Inductive RawMethod := Raw (text : string).

#[export] Instance RawMethod_RPCMethod : RPCMethodImpl RawMethod :=
  {| MarshalMethod := fun r => match r with Raw text => text end |}.

Definition LF : string := String (ascii_of_nat 10) "".

Definition MethodLock (target : string) : RawMethod :=
  Raw ("<lock><target><" +++ target +++ "/></target></lock>").

Definition MethodUnlock (target : string) : RawMethod :=
  Raw ("<unlock><target><" +++ target +++ "/></target></unlock>").

Definition MethodGetConfig (source : string) : RawMethod :=
  Raw ("<get-config><source><" +++ source +++ "/></source></get-config>").

Definition MethodGet (filterType dataXml : string) : RawMethod :=
  Raw ("<get><filter type=" +++ Q +++ filterType +++ Q +++ ">" +++ dataXml +++ "</filter></get>").

Definition MethodEditConfig (database dataXml : string) : RawMethod :=
  Raw ("<edit-config>" +++ LF +++
       "<target><" +++ database +++ "/></target>" +++ LF +++
       "<default-operation>merge</default-operation>" +++ LF +++
       "<error-option>rollback-on-error</error-option>" +++ LF +++
       "<config>" +++ dataXml +++ "</config>" +++ LF +++
       "</edit-config>").

Definition MethodValidate (source : string) : RawMethod :=
  Raw ("<validate><source><" +++ source +++ "/></source></validate>").

Definition MethodSetConfig (config : string) : RawMethod :=
  Raw ("<load-configuration action=" +++ Q +++ "set" +++ Q +++ " format=" +++ Q +++ "text" +++ Q
       +++ "><configuration-set>" +++ config +++ "</configuration-set></load-configuration>").

Definition MethodDiscard : RawMethod := Raw "<discard-changes/>".

Definition MethodCompare : RawMethod :=
  Raw ("<get-configuration compare=" +++ Q +++ "rollback" +++ Q +++ " rollback=" +++ Q +++ "0" +++ Q
       +++ " format=" +++ Q +++ "text" +++ Q +++ "/>").

Definition MethodCommit (msg : string) : RawMethod :=
  Raw ("<commit-configuration><log>" +++ msg +++ "</log></commit-configuration>").

(** ** Message identifiers *)

(** [rand.Reader]: the state of the random source is the sequence of bytes
    it still delivers; it fails when they run out. *)
Definition Reader := list ascii.

(** [io.ReadFull(r, buf)]: the bytes read overwrite the front of [buf]; what
    the source cannot deliver is left as it was. *)
Definition ReadFull (r : Reader) (buf : list ascii) : list ascii * Reader :=
  (firstn (List.length buf) r ++ skipn (List.length r) buf, skipn (List.length buf) r).

Definition zeroByte : ascii := ascii_of_nat 0.

(** [b[i]] and [b[i] = v] on a byte slice, inside its bounds. *)
Definition getByte (b : list ascii) (i : nat) : ascii := nth i b zeroByte.

Fixpoint setByte (b : list ascii) (i : nat) (v : ascii) : list ascii :=
  match b, i with
  | [], _ => []
  | _ :: r, O => v :: r
  | x :: r, S k => x :: setByte r k v
  end.

(** [b[lo:hi]]. *)
Definition slice (b : list ascii) (lo hi : nat) : list ascii := firstn (hi - lo) (skipn lo b).

Definition band (b : ascii) (mask : N) : ascii := ascii_of_N (N.land (N_of_ascii b) mask).
Definition bor (b : ascii) (bits : N) : ascii := ascii_of_N (N.lor (N_of_ascii b) bits).

(** The verb [%x] on a byte slice: two lower-case digits per byte. *)
Definition ldigits : string := "0123456789abcdef".

Definition hexDigit (n : N) : ascii :=
  match String.get (N.to_nat n) ldigits with
  | Some c => c
  | None => "0"%char
  end.

Definition hexByte (b : ascii) : string :=
  String (hexDigit (N.shiftr (N_of_ascii b) 4)) (String (hexDigit (N.land (N_of_ascii b) 15)) "").

Fixpoint hexBytes (b : list ascii) : string :=
  match b with
  | [] => ""
  | x :: r => hexByte x +++ hexBytes r
  end.

Definition uuid (rand : Reader) : string * Reader :=
  let b := repeat zeroByte 16 in
  let '(b, rand) := ReadFull rand b in
  let b := setByte b 6 (bor (band (getByte b 6) 15) 64) in
  let b := setByte b 8 (bor (band (getByte b 8) 63) 128) in
  (hexBytes (slice b 0 4) +++ "-" +++ hexBytes (slice b 4 6) +++ "-" +++
   hexBytes (slice b 6 8) +++ "-" +++ hexBytes (slice b 8 10) +++ "-" +++
   hexBytes (skipn 10 b), rand).

Definition msgID := uuid.

(** ** Requests *)

Record RPCMessage := {
  MessageID : string;
  Methods : list RPCMethod
}.

Definition NewRPCMessage (rand : Reader) (methods : list RPCMethod) : RPCMessage * Reader :=
  let '(id, rand) := msgID rand in
  ({| MessageID := id; Methods := methods |}, rand).

(** The anonymous struct that [MarshalXML] encodes: two attributes and the
    inner XML. *)
Record rpcData := {
  dataMessageID : string;    (* xml:"message-id,attr" *)
  dataXmlns : string;        (* xml:"xmlns,attr" *)
  dataMethods : string       (* xml:",innerxml" *)
}.

(** [e.EncodeElement(data, start)] for that struct: the attribute fields
    are appended to the start element, the start tag is written, the inner
    XML is copied as it is, the end tag is written. *)
Definition EncodeElement (e : xml.printer) (data : rpcData) (start : xml.StartElement)
  : xml.printer * option error :=
  let start :=
    {| xml.SName := xml.SName start;
       xml.SAttr := xml.SAttr start ++
         [ {| xml.AttrName := "message-id"; xml.Value := dataMessageID data |};
           {| xml.AttrName := "xmlns"; xml.Value := dataXmlns data |} ] |} in
  let '(e, err) := xml.writeStart e start in
  match err with
  | Some err => (e, Some err)
  | None => xml.writeEnd (e +++ dataMethods data) (xml.SName start)
  end.

Definition MarshalXML (m : RPCMessage) (e : xml.printer) (start : xml.StartElement)
  : xml.printer * option error :=
  let buf := fold_left (fun buf method => buf +++ marshalMethod method) (Methods m) "" in
  let data := {| dataMessageID := MessageID m;
                 dataXmlns := "urn:ietf:params:xml:ns:netconf:base:1.0";
                 dataMethods := buf |} in
  (* Wrap the raw XML (data) into <rpc>...</rpc> tags *)
  let start := {| xml.SName := {| xml.NameSpace := xml.NameSpace (xml.SName start);
                                  xml.Local := "rpc" |};
                  xml.SAttr := xml.SAttr start |} in
  EncodeElement e data start.

(** [xml.Marshal(m)]: the message is a [Marshaler], so its [MarshalXML]
    writes the whole output; on an error no bytes are returned. *)
Definition Marshal (m : RPCMessage) : string * option error :=
  let '(out, err) := MarshalXML m "" (xml.defaultStart "RPCMessage") in
  match err with
  | Some e => ("", Some e)
  | None => (out, None)
  end.

(** ** Replies *)

Record RPCReply := {
  Errors : list RPCError;
  Data : etree.Document;
  Ok : bool;
  ReplyMessageID : string
}.

Definition withData (r : RPCReply) (d : etree.Document) : RPCReply :=
  {| Errors := Errors r; Data := d; Ok := Ok r; ReplyMessageID := ReplyMessageID r |}.

Definition withOk (r : RPCReply) (ok : bool) : RPCReply :=
  {| Errors := Errors r; Data := Data r; Ok := ok; ReplyMessageID := ReplyMessageID r |}.

Definition withErrors (r : RPCReply) (errs : list RPCError) : RPCReply :=
  {| Errors := errs; Data := Data r; Ok := Ok r; ReplyMessageID := ReplyMessageID r |}.

Definition withMessageID (r : RPCReply) (id : string) : RPCReply :=
  {| Errors := Errors r; Data := Data r; Ok := Ok r; ReplyMessageID := id |}.

(** The closure [safeText] of [newRPCReply]. *)
Definition safeText (el : option etree.node) : string :=
  match el with
  | None => ""
  | Some e => etree.Text e
  end.

(** The [RPCError] literal of the loop over the reported errors, for the
    element [rpcErr] of the document [d]. *)
Definition decodeRPCError (d : etree.Document) (rpcErr : etree.node) : RPCError :=
  let find := etree.FindElement (etree.docElement d) rpcErr in
  {| Type_ := safeText (find "error-type");
     Tag := safeText (find "error-tag");
     Severity := safeText (find "error-severity");
     Path := safeText (find "error-path");
     Message := safeText (find "error-message") |}.

(** The classification loop: the first error that fails the call. *)
Fixpoint firstFailing (errs : list RPCError) (ErrOnWarning : bool) : option RPCError :=
  match errs with
  | [] => None
  | rpcErr :: rest =>
      if String.eqb (Severity rpcErr) "error" || ErrOnWarning
      then Some rpcErr
      else firstFailing rest ErrOnWarning
  end.

(** The interface [Transport] over a channel state [T]. *)
Class TransportOps (T : Type) := {
  Send : T -> string -> T * option error;
  Receive : T -> T * (string * option error)
}.

Record Session (T : Type) := {
  Transport : T;
  ErrOnWarning : bool
}.
Arguments Transport {T} s.
Arguments ErrOnWarning {T} s.

Definition withTransport {T} (s : Session T) (t : T) : Session T :=
  {| Transport := t; ErrOnWarning := ErrOnWarning s |}.

Section Reply.

(** [Document.ReadFromBytes] of etree, which parses with encoding/xml:
    given the document and the raw bytes it yields the document read and,
    when the bytes are not well-formed, the reader's error message. *)
Variable ReadFromBytes : etree.Document -> string -> etree.Document * option string.

Definition newRPCReply (rawXML : string) (ErrOnWarning : bool) (messageID : string)
  : exec error (option RPCReply * option error) :=
  let reply := {| Errors := []; Data := etree.NewDocument; Ok := false;
                  ReplyMessageID := "" |} in
  let '(data, err) := ReadFromBytes (Data reply) rawXML in
  let reply := withData reply data in
  match err with
  | Some err => Return (None, Some (ReadError err))
  | None =>
      let reply :=
        match etree.DocFindElement (Data reply) "//ok" with
        | Some _ => withOk reply true
        | None => reply
        end in
      wrapper <- deref (etree.DocFindElement (Data reply) "rpc-reply") ;;
      root <- index (etree.ChildElements wrapper) 0 ;;
      match root with
      | None => Return (None, Some (Errorf "can't find root"))
      | Some root =>
          let reply := withData reply (etree.SetRoot (Data reply) root) in
          let reply :=
            withErrors reply
              (fold_left (fun errs rpcErr => errs ++ [decodeRPCError (Data reply) rpcErr])
                         (etree.DocFindElements (Data reply) "//rpc-error")
                         (Errors reply)) in
          (* will return a valid reply so setting Requests message id *)
          let reply := withMessageID reply messageID in
          match Errors reply with
          | [] => Return (Some reply, None)
          | _ =>
              match firstFailing (Errors reply) ErrOnWarning with
              | Some rpcErr => Return (Some reply, Some (RPCErr rpcErr))
              | None => Return (Some reply, None)
              end
          end
      end
  end.

Definition Exec {T} `{TransportOps T} (m : RPCMessage) (s : Session T)
  : exec error (Session T * (option RPCReply * option error)) :=
  let '(request, err) := Marshal m in
  match err with
  | Some err => Return (s, (None, Some err))
  | None =>
      let header := xml.Header in
      let request := header +++ request in
      let '(t, err) := Send (Transport s) request in
      let s := withTransport s t in
      match err with
      | Some err => Return (s, (None, Some err))
      | None =>
          let '(t, (rawXML, err)) := Receive (Transport s) in
          let s := withTransport s t in
          match err with
          | Some err => Return (s, (None, Some err))
          | None =>
              r <- newRPCReply rawXML (ErrOnWarning s) (MessageID m) ;;
              let '(reply, err) := r in
              match err with
              | Some err => Return (s, (None, Some err))
              | None => Return (s, (reply, None))
              end
          end
      end
  end.

End Reply.

(** ** Credentials *)

(** The interface [Credential]: [Config] has a single result, the client
    configuration; a call either returns it or panics. *)
Class Credential (ClientConfig C : Type) := {
  Config : C -> exec error (option ClientConfig)
}.

Record PlainPassword := {
  PlainUser : string;
  Password : string
}.

(** The credential that names a key file. *)
Record PublicKey := {
  User : string;
  File : string
}.

(** The variant of the credential that carries the key text itself. *)
Record PublicKeyText := {
  KeyUser : string;
  Key : string
}.

Section Credentials.

(** [*ssh.ClientConfig], and the builders of the SSH transport, which
    live with the transport code of the repository. *)
Variable ClientConfig : Type.
Variable SSHConfigPassword : string -> string -> option ClientConfig.
Variable SSHConfigPubKeyFile : string -> string -> option ClientConfig * option error.
Variable SSHConfigPubKeyFilePass :
  string -> string -> string -> option ClientConfig * option error.

Definition PlainPassword_String (p : PlainPassword) : string :=
  PlainUser p +++ " plain password".

Definition PlainPassword_Config (p : PlainPassword) : exec error (option ClientConfig) :=
  Return (SSHConfigPassword (PlainUser p) (Password p)).

Definition PublicKey_String (p : PublicKey) : string :=
  User p +++ " public key".

Definition PublicKey_Config (p : PublicKey) : exec error (option ClientConfig) :=
  let '(cfg, err) := SSHConfigPubKeyFile (User p) (File p) in
  match err with
  | Some err => Panicked (PanicValue err)
  | None => Return cfg
  end.

Definition PublicKeyText_Config (p : PublicKeyText) : exec error (option ClientConfig) :=
  let '(cfg, err) := SSHConfigPubKeyFilePass (KeyUser p) (Key p) LF in
  match err with
  | Some err => Panicked (PanicValue err)
  | None => Return cfg
  end.

#[export] Instance PlainPassword_Credential : Credential ClientConfig PlainPassword :=
  {| Config := PlainPassword_Config |}.

#[export] Instance PublicKey_Credential : Credential ClientConfig PublicKey :=
  {| Config := PublicKey_Config |}.

#[export] Instance PublicKeyText_Credential : Credential ClientConfig PublicKeyText :=
  {| Config := PublicKeyText_Config |}.

End Credentials.

(** ** Sample replies

    A few reply texts with the token trees etree reads from them, and a
    reader that knows exactly the texts of a table; it refuses every other
    input as malformed. *)

Definition tableReader (table : list (string * etree.Document))
  : etree.Document -> string -> etree.Document * option string :=
  fun d raw =>
    match find (fun entry => String.eqb (fst entry) raw) table with
    | Some (_, doc) => (doc, None)
    | None => (d, Some "XML syntax error")
    end.

Definition elem (tag : string) (child : list etree.Token) : etree.Token :=
  etree.ElementToken "" tag [] child.

Definition text (data : string) : etree.Token := etree.CharDataToken data.

Definition replyElem (id : string) (child : list etree.Token) : etree.Token :=
  etree.ElementToken "" "rpc-reply"
    [ {| etree.AttrSpace := ""; etree.AttrKey := "message-id"; etree.AttrValue := id |} ] child.

Definition replyOpen (id : string) : string :=
  "<rpc-reply message-id=" +++ Q +++ id +++ Q +++ ">".

(** A reply that is only the wrapper. *)
Definition rawRootless : string := replyOpen "101" +++ "</rpc-reply>".

Definition docRootless : etree.Document :=
  {| etree.docChild := [replyElem "101" []] |}.

(** A reply with a warning and an error, both directly under the wrapper. *)
Definition rawTwoErrors : string :=
  replyOpen "101" +++
  "<rpc-error><error-severity>warning</error-severity></rpc-error>" +++
  "<rpc-error><error-severity>error</error-severity><error-message>locked</error-message></rpc-error>" +++
  "</rpc-reply>".

Definition docTwoErrors : etree.Document :=
  {| etree.docChild :=
       [replyElem "101"
          [ elem "rpc-error" [elem "error-severity" [text "warning"]];
            elem "rpc-error" [elem "error-severity" [text "error"];
                              elem "error-message" [text "locked"]] ]] |}.

(** A reply with data and no acknowledgement. *)
Definition rawData : string :=
  replyOpen "ID" +++ "<data><x>1</x></data></rpc-reply>".

Definition docData : etree.Document :=
  {| etree.docChild := [replyElem "ID" [elem "data" [elem "x" [text "1"]]]] |}.

(** A reply with one error. *)
Definition rawLocked : string :=
  replyOpen "ID" +++
  "<rpc-error><error-severity>error</error-severity><error-message>locked</error-message></rpc-error>" +++
  "</rpc-reply>".

Definition docLocked : etree.Document :=
  {| etree.docChild :=
       [replyElem "ID"
          [ elem "rpc-error" [elem "error-severity" [text "error"];
                              elem "error-message" [text "locked"]] ]] |}.

(** A reply whose results element holds a warning, an error and a second
    warning, then the acknowledgement. *)
Definition rawResults : string :=
  replyOpen "7" +++ "<commit-results>" +++
  "<rpc-error><error-severity>warning</error-severity><error-message>first</error-message></rpc-error>" +++
  "<rpc-error><error-severity>error</error-severity><error-message>second</error-message></rpc-error>" +++
  "<rpc-error><error-severity>warning</error-severity><error-message>third</error-message></rpc-error>" +++
  "<ok/></commit-results></rpc-reply>".

Definition docResults : etree.Document :=
  {| etree.docChild :=
       [replyElem "7"
          [ elem "commit-results"
              [ elem "rpc-error" [elem "error-severity" [text "warning"];
                                  elem "error-message" [text "first"]];
                elem "rpc-error" [elem "error-severity" [text "error"];
                                  elem "error-message" [text "second"]];
                elem "rpc-error" [elem "error-severity" [text "warning"];
                                  elem "error-message" [text "third"]];
                elem "ok" [] ] ]] |}.

(** A document with no wrapper at all. *)
Definition rawNoWrapper : string := "<hello/>".

Definition docNoWrapper : etree.Document :=
  {| etree.docChild := [elem "hello" []] |}.

Definition sampleReplies : list (string * etree.Document) :=
  [ (rawRootless, docRootless); (rawTwoErrors, docTwoErrors); (rawData, docData);
    (rawLocked, docLocked); (rawResults, docResults); (rawNoWrapper, docNoWrapper) ].

Definition sampleReader := tableReader sampleReplies.

(** The replies and errors decoded from the samples. *)

Definition mkError (severity message : string) : RPCError :=
  {| Type_ := ""; Tag := ""; Severity := severity; Path := ""; Message := message |}.

Definition resultsErrors : list RPCError :=
  [ mkError "warning" "first"; mkError "error" "second"; mkError "warning" "third" ].

Definition resultsReply : RPCReply :=
  {| Errors := resultsErrors;
     Data := {| etree.docChild :=
                  [ elem "commit-results"
                      [ elem "rpc-error" [elem "error-severity" [text "warning"];
                                          elem "error-message" [text "first"]];
                        elem "rpc-error" [elem "error-severity" [text "error"];
                                          elem "error-message" [text "second"]];
                        elem "rpc-error" [elem "error-severity" [text "warning"];
                                          elem "error-message" [text "third"]];
                        elem "ok" [] ] ] |};
     Ok := true;
     ReplyMessageID := "7" |}.

Definition dataReply : RPCReply :=
  {| Errors := [];
     Data := {| etree.docChild := [elem "data" [elem "x" [text "1"]]] |};
     Ok := false;
     ReplyMessageID := "ID" |}.

Definition twoErrorsReply : RPCReply :=
  {| Errors := [ mkError "warning" "" ];
     Data := {| etree.docChild :=
                  [ elem "rpc-error" [elem "error-severity" [text "warning"]] ] |};
     Ok := false;
     ReplyMessageID := "101" |}.

(** Sample credentials and key loaders: a loader that finds no key in its
    input and one that accepts every input. *)

Definition noKeyFound : error := KeyError "ssh: no key found".

Definition rejectingLoader (user file : string) : option unit * option error :=
  (None, Some noKeyFound).

Definition rejectingTextLoader (user key passphrase : string) : option unit * option error :=
  (None, Some noKeyFound).

Definition acceptingLoader (user file : string) : option unit * option error :=
  (Some tt, None).

Definition acceptingTextLoader (user key passphrase : string) : option unit * option error :=
  (Some tt, None).

Definition adminKeyFile : PublicKey := {| User := "admin"; File := "/etc/netconf/id_rsa" |}.

Definition adminKeyText : PublicKeyText := {| KeyUser := "admin"; Key := "not a key" |}.

(** The request of the get scenario. *)
Definition getMessage : RPCMessage :=
  {| MessageID := "ID"; Methods := [asMethod (MethodGet "subtree" "<x/>")] |}.

(** A transport that records what is sent and hands out prepared
    replies. *)
Record cannedTransport := {
  sent : list string;
  incoming : list string
}.

Definition cannedSend (t : cannedTransport) (request : string)
  : cannedTransport * option error :=
  ({| sent := sent t ++ [request]; incoming := incoming t |}, None).

Definition cannedReceive (t : cannedTransport) : cannedTransport * (string * option error) :=
  match incoming t with
  | [] => (t, ("", Some (TransportError "EOF")))
  | reply :: rest => ({| sent := sent t; incoming := rest |}, (reply, None))
  end.

#[export] Instance cannedTransport_ops : TransportOps cannedTransport :=
  {| Send := cannedSend; Receive := cannedReceive |}.

Definition lockedSession : Session cannedTransport :=
  {| Transport := {| sent := []; incoming := [rawLocked] |}; ErrOnWarning := false |}.

(** * Properties *)

(** ** Facts about the document tree *)

Module etree_facts.
Import etree.

Lemma node_eq (a b : node) : pos a = pos b -> elt a = elt b -> a = b.
Proof. destruct a, b; simpl; intros -> ->; reflexivity. Qed.

Lemma lookup_app top p q :
  lookup top (p ++ q) =
  match lookup top p with
  | Some e => lookup e q
  | None => None
  end.
Proof.
  revert top; induction p as [|i p IH]; intros top; simpl; [reflexivity|].
  destruct (nth_error (Child top) i) as [t|]; [|reflexivity].
  destruct (asElement t) as [e|]; [apply IH | reflexivity].
Qed.

Lemma lookup_single e i c :
  lookup e [i] = Some c <->
  exists t, nth_error (Child e) i = Some t /\ asElement t = Some c.
Proof.
  simpl. destruct (nth_error (Child e) i) as [t|].
  - destruct (asElement t) as [c'|] eqn:E.
    + split; [intros H; exists t; split; congruence|].
      intros (t' & Ht & Hc). congruence.
    + split; [discriminate|]. intros (t' & Ht & Hc). congruence.
  - split; [discriminate|]. intros (t' & Ht & _). discriminate.
Qed.

Lemma lookup_cons e i s c :
  lookup e [i] = Some c -> lookup e (i :: s) = lookup c s.
Proof.
  simpl. destruct (nth_error (Child e) i) as [t|]; [|discriminate].
  destruct (asElement t); [|discriminate]. intros H; inversion H; reflexivity.
Qed.

Lemma lookup_cons_inv e i s x :
  lookup e (i :: s) = Some x ->
  exists c, lookup e [i] = Some c /\ lookup c s = Some x.
Proof.
  simpl. destruct (nth_error (Child e) i) as [t|]; [|discriminate].
  destruct (asElement t) as [c|]; [|discriminate].
  intros H. exists c. split; [reflexivity | exact H].
Qed.

Lemma childNodesFrom_In p i0 ch c :
  In c (childNodesFrom p i0 ch) <->
  exists j t, nth_error ch j = Some t /\ asElement t = Some (elt c) /\ pos c = p ++ [i0 + j].
Proof.
  revert i0; induction ch as [|t r IH]; intros i0; simpl.
  - split; [tauto|]. intros (j & t & H & _). destruct j; discriminate.
  - assert (Hrest : In c (childNodesFrom p (S i0) r) <->
              exists j t', nth_error (t :: r) (S j) = Some t' /\
                           asElement t' = Some (elt c) /\ pos c = p ++ [i0 + S j]).
    { rewrite IH. split; intros (j & t' & H1 & H2 & H3); exists j, t'; simpl in *;
        repeat split; auto; rewrite H3; f_equal; f_equal; lia. }
    destruct (asElement t) as [e|] eqn:E; simpl.
    + split.
      * intros [<-|H].
        -- exists 0, t. simpl. rewrite Nat.add_0_r. auto.
        -- apply Hrest in H. destruct H as (j & t' & H). exists (S j), t'. exact H.
      * intros (j & t' & H1 & H2 & H3). destruct j as [|j].
        -- left. simpl in H1. inversion H1; subst t'.
           apply node_eq; simpl; [rewrite H3, Nat.add_0_r; reflexivity | congruence].
        -- right. apply Hrest. exists j, t'. auto.
    + split.
      * intros H. apply Hrest in H. destruct H as (j & t' & H). exists (S j), t'. exact H.
      * intros (j & t' & H1 & H2 & H3). destruct j as [|j].
        -- simpl in H1. inversion H1; subst t'. congruence.
        -- apply Hrest. exists j, t'. auto.
Qed.

Lemma childNodes_In n c :
  In c (childNodes n) <->
  exists i, pos c = pos n ++ [i] /\ lookup (elt n) [i] = Some (elt c).
Proof.
  unfold childNodes. rewrite childNodesFrom_In. split.
  - intros (j & t & H1 & H2 & H3). exists j. split; [exact H3|].
    apply lookup_single. exists t. auto.
  - intros (i & H1 & H2). apply lookup_single in H2. destruct H2 as (t & Ht & Hc).
    exists i, t. auto.
Qed.

(** The breadth-first walk reaches exactly the elements of the subtrees of
    the queued nodes. *)
Lemma descendants_In q n :
  In n (descendants q) <->
  exists m s, In m q /\ pos n = pos m ++ s /\ lookup (elt m) s = Some (elt n).
Proof.
  funelim (descendants q).
  - simpl. split; [tauto|]. intros (m & s & [] & _).
  - rename H into IH. simpl. rewrite IH. split.
    + intros [<-|(m & s & Hm & Hp & Hl)].
      * exists e, []. rewrite app_nil_r. simpl. auto.
      * apply in_app_or in Hm. destruct Hm as [Hm|Hm].
        -- exists m, s. auto.
        -- apply childNodes_In in Hm. destruct Hm as (i & Hi & Hc).
           exists e, (i :: s). split; [auto|]. split.
           ++ rewrite Hp, Hi, <- app_assoc. reflexivity.
           ++ rewrite (lookup_cons _ _ _ _ Hc). exact Hl.
    + intros (m & s & [<-|Hm] & Hp & Hl).
      * destruct s as [|i s].
        -- left. simpl in Hl. inversion Hl.
           apply node_eq; [rewrite Hp, app_nil_r; reflexivity | assumption].
        -- right. apply lookup_cons_inv in Hl. destruct Hl as (c & Hc & Hl).
           exists {| pos := pos e ++ [i]; elt := c |}, s. split; [|split].
           ++ apply in_or_app. right. apply childNodes_In. exists i. simpl. auto.
           ++ simpl. rewrite Hp, <- app_assoc. reflexivity.
           ++ exact Hl.
      * right. exists m, s. split; [apply in_or_app; auto | auto].
Qed.

Lemma addResults_head_nonempty cands r0 rs :
  hd_error (addResults cands (r0 :: rs)) = Some r0.
Proof.
  revert rs; induction cands as [|c r IH]; intros rs; simpl; [reflexivity|].
  destruct (ptr_eqb (pos r0) (pos c) || existsb _ rs); [apply IH|].
  change (r0 :: rs ++ [c]) with (r0 :: (rs ++ [c])). apply IH.
Qed.

Lemma addResults_head cands : hd_error (addResults cands []) = hd_error cands.
Proof. destruct cands as [|c r]; simpl; [reflexivity | apply addResults_head_nonempty]. Qed.

(** A search for [//tag] from the document finds an element exactly when
    the document has an element with that tag, whatever its space. *)
Lemma DocFindElement_any_depth d path tag :
  MustCompilePath path = [selectRoot; selectDescendants; selectChildrenByTag "" tag] ->
  (exists n, DocFindElement d path = Some n) <->
  (exists p e, p <> [] /\ lookup (docElement d) p = Some e /\ Tag e = tag).
Proof.
  intros Hpath. unfold DocFindElement, FindElement, FindElementPath, traverse.
  rewrite Hpath. cbn [eval flat_map apply app]. rewrite !app_nil_r.
  change {| pos := []; elt := docElement d |} with (docNode d).
  set (cands := flat_map _ _).
  assert (Hhead : (exists n, match addResults cands [] with
                             | first :: _ => Some first
                             | [] => None
                             end = Some n) <-> exists n, In n cands).
  { pose proof (addResults_head cands) as Hh.
    destruct (addResults cands []) as [|a l]; destruct cands as [|c r]; simpl in *;
      try discriminate.
    - split; intros [n H]; [discriminate | contradiction].
    - split; intros _; eauto. }
  rewrite Hhead. unfold cands. clear Hhead cands. split.
  - intros (n & Hn). apply in_flat_map in Hn. destruct Hn as (m & Hm & Hn).
    apply filter_In in Hn. destruct Hn as (Hn & Hf).
    apply descendants_In in Hm. destruct Hm as (m0 & s & [<-|[]] & Hp & Hl).
    apply childNodes_In in Hn. destruct Hn as (i & Hi & Hc).
    simpl in Hp, Hl. exists (pos n), (elt n). split; [|split].
    + rewrite Hi. intros E. apply app_eq_nil in E. destruct E; discriminate.
    + rewrite Hi, lookup_app. rewrite Hp, Hl. exact Hc.
    + apply andb_true_iff in Hf. destruct Hf as (_ & Hf).
      apply String.eqb_eq in Hf. symmetry. exact Hf.
  - intros (p & e & Hne & Hl & Ht).
    destruct (exists_last Hne) as (p' & i & ->).
    rewrite lookup_app in Hl.
    destruct (lookup (docElement d) p') as [par|] eqn:Hpar; [|discriminate].
    exists {| pos := p' ++ [i]; elt := e |}. apply in_flat_map.
    exists {| pos := p'; elt := par |}. split.
    + apply descendants_In. exists (docNode d), p'. simpl. auto.
    + apply filter_In. split.
      * apply childNodes_In. exists i. simpl. auto.
      * simpl. rewrite Ht. apply String.eqb_refl.
Qed.

(** *** The search visits every element once

    Positions are compared as paths: the queue of the breadth-first walk
    never holds a position together with one of its extensions. *)

Definition extends (q p : ptr) : Prop := exists s, q = p ++ s.

Definition apart (p q : ptr) : Prop := ~ extends q p /\ ~ extends p q.

Fixpoint Antichain (l : list ptr) : Prop :=
  match l with
  | [] => True
  | p :: r => (forall q, In q r -> apart p q) /\ Antichain r
  end.

Lemma Antichain_app l1 l2 :
  Antichain (l1 ++ l2) <->
  Antichain l1 /\ Antichain l2 /\ (forall p q, In p l1 -> In q l2 -> apart p q).
Proof.
  induction l1 as [|a l1 IH]; simpl.
  - split.
    + intros H. split; [exact I|]. split; [exact H|]. intros p q [].
    + intros (_ & H & _). exact H.
  - rewrite IH. split.
    + intros (Ha & H1 & H2 & H12). split; [split|split].
      * intros q Hq. apply Ha. apply in_or_app. left. exact Hq.
      * exact H1.
      * exact H2.
      * intros p q [<-|Hp] Hq.
        -- apply Ha. apply in_or_app. right. exact Hq.
        -- apply H12; assumption.
    + intros ((Ha & H1) & H2 & H12). split; [|split; [|split]].
      * intros q Hq. apply in_app_or in Hq. destruct Hq as [Hq|Hq].
        -- apply Ha. exact Hq.
        -- apply H12; [left; reflexivity | exact Hq].
      * exact H1.
      * exact H2.
      * intros p q Hp Hq. apply H12; [right; exact Hp | exact Hq].
Qed.

Lemma Antichain_NoDup l : Antichain l -> NoDup l.
Proof.
  induction l as [|p l IH]; simpl; intros H; constructor.
  - intros Hin. destruct (proj1 H p Hin) as (Hn & _). apply Hn.
    exists (@nil nat). rewrite app_nil_r. reflexivity.
  - apply IH. exact (proj2 H).
Qed.

Lemma childNodesFrom_pos p i ch c :
  In c (childNodesFrom p i ch) -> exists k, i <= k /\ pos c = p ++ [k].
Proof.
  intros H. apply childNodesFrom_In in H. destruct H as (j & t & _ & _ & H).
  exists (i + j). split; [lia | exact H].
Qed.

Lemma single_extension (p : ptr) (i k : nat) (s : ptr) :
  p ++ [k] = (p ++ [i]) ++ s -> k = i.
Proof.
  rewrite <- app_assoc. intros H. apply app_inv_head in H. simpl in H.
  inversion H. reflexivity.
Qed.

Lemma childNodesFrom_Antichain p i ch : Antichain (map pos (childNodesFrom p i ch)).
Proof.
  revert i; induction ch as [|t r IH]; intros i; simpl; [exact I|].
  destruct (asElement t) as [e|]; [|apply IH].
  simpl. split; [|apply IH].
  intros q Hq. apply in_map_iff in Hq. destruct Hq as (c & <- & Hc).
  apply childNodesFrom_pos in Hc. destruct Hc as (k & Hk & ->).
  split; intros (s & Hs).
  - apply single_extension in Hs. lia.
  - apply single_extension in Hs. lia.
Qed.

Lemma descendants_NoDup q :
  Antichain (map pos q) -> NoDup (map pos (descendants q)).
Proof.
  funelim (descendants q).
  - intros _. constructor.
  - rename H into IH. intros HA. simpl in HA. destruct HA as (Ha & Hq).
    simpl. constructor.
    + intros Hin. apply in_map_iff in Hin. destruct Hin as (n & Hpn & Hn).
      apply descendants_In in Hn. destruct Hn as (m & s & Hm & Hp & _).
      apply in_app_or in Hm. destruct Hm as [Hm|Hm].
      * destruct (Ha (pos m) (in_map pos _ _ Hm)) as (_ & Hn). apply Hn.
        exists s. congruence.
      * apply childNodes_In in Hm. destruct Hm as (i & Hi & _).
        rewrite Hp, Hi in Hpn. apply (f_equal (@List.length nat)) in Hpn.
        rewrite !length_app in Hpn. simpl in Hpn. lia.
    + apply IH. rewrite map_app. apply Antichain_app.
      split; [exact Hq|]. split; [apply childNodesFrom_Antichain|].
      intros p' q' Hp' Hq'. apply in_map_iff in Hq'. destruct Hq' as (c & <- & Hc).
      apply childNodesFrom_pos in Hc. destruct Hc as (k & _ & ->).
      destruct (Ha p' Hp') as (Ha1 & Ha2). split; intros (s & Hs).
      * destruct s as [|x s] using rev_ind.
        -- rewrite app_nil_r in Hs. apply Ha1. exists [k]. symmetry. exact Hs.
        -- rewrite app_assoc in Hs. apply app_inj_tail in Hs. destruct Hs as (Hs & _).
           apply Ha2. exists s. exact Hs.
      * apply Ha1. exists (k :: s). rewrite Hs, <- app_assoc. reflexivity.
Qed.

Lemma NoDup_map_filter (f : node -> bool) l :
  NoDup (map pos l) -> NoDup (map pos (filter f l)).
Proof.
  induction l as [|a l IH]; simpl; intros H; [constructor|].
  inversion H as [|? ? Hnot Hrest]; subst.
  destruct (f a); [|apply IH; exact Hrest].
  simpl. constructor; [|apply IH; exact Hrest].
  intros Hin. apply Hnot. apply in_map_iff in Hin. destruct Hin as (c & Hc & Hin).
  apply filter_In in Hin. destruct Hin as (Hin & _).
  apply in_map_iff. exists c. auto.
Qed.

Lemma candidates_NoDup top space tag ds :
  NoDup (map pos ds) ->
  NoDup (map pos (flat_map (apply top (selectChildrenByTag space tag)) ds)).
Proof.
  induction ds as [|d ds IH]; simpl; intros H; [constructor|].
  inversion H as [|? ? Hnot Hrest]; subst.
  rewrite map_app. apply NoDup_app.
  - apply NoDup_map_filter. apply Antichain_NoDup. apply childNodesFrom_Antichain.
  - apply IH. exact Hrest.
  - intros x Hx Hx'. apply Hnot.
    apply in_map_iff in Hx. destruct Hx as (c & <- & Hc).
    apply filter_In in Hc. destruct Hc as (Hc & _).
    apply childNodes_In in Hc. destruct Hc as (i & Hi & _).
    apply in_map_iff in Hx'. destruct Hx' as (c' & Hpc' & Hc').
    apply in_flat_map in Hc'. destruct Hc' as (d' & Hd' & Hc').
    simpl in Hc'. apply filter_In in Hc'. destruct Hc' as (Hc' & _).
    apply childNodes_In in Hc'. destruct Hc' as (i' & Hi' & _).
    rewrite Hi, Hi' in Hpc'. apply app_inj_tail in Hpc'. destruct Hpc' as (Hpc' & _).
    rewrite <- Hpc'. apply in_map. exact Hd'.
Qed.

Lemma addResults_NoDup cands results :
  NoDup (map pos (results ++ cands)) -> addResults cands results = results ++ cands.
Proof.
  revert results; induction cands as [|c r IH]; intros results H; simpl.
  - rewrite app_nil_r. reflexivity.
  - assert (Hfresh : existsb (fun x => ptr_eqb (pos x) (pos c)) results = false).
    { apply not_true_is_false. intros Hex. apply existsb_exists in Hex.
      destruct Hex as (x & Hx & Heq). apply listEqb_nat_spec in Heq.
      rewrite map_app in H. simpl in H. apply NoDup_remove_2 in H. apply H.
      apply in_or_app. left. rewrite <- Heq. apply in_map. exact Hx. }
    rewrite Hfresh. rewrite IH.
    + rewrite <- app_assoc. reflexivity.
    + rewrite <- app_assoc. exact H.
Qed.

(** The candidates of a search for [//tag]: the elements with that tag,
    each with its position. *)
Lemma candidates_In d tag c :
  In c (flat_map (apply (docElement d) (selectChildrenByTag "" tag))
          (descendants [docNode d])) <->
  pos c <> [] /\ lookup (docElement d) (pos c) = Some (elt c) /\ Tag (elt c) = tag.
Proof.
  split.
  - intros Hn. apply in_flat_map in Hn. destruct Hn as (m & Hm & Hn).
    apply filter_In in Hn. destruct Hn as (Hn & Hf).
    apply descendants_In in Hm. destruct Hm as (m0 & s & [<-|[]] & Hp & Hl).
    apply childNodes_In in Hn. destruct Hn as (i & Hi & Hc).
    simpl in Hp, Hl. split; [|split].
    + rewrite Hi. intros E. apply app_eq_nil in E. destruct E; discriminate.
    + rewrite Hi, lookup_app. rewrite Hp, Hl. exact Hc.
    + apply andb_true_iff in Hf. destruct Hf as (_ & Hf).
      apply String.eqb_eq in Hf. symmetry. exact Hf.
  - intros (Hne & Hl & Ht).
    destruct (exists_last Hne) as (p' & i & Hp).
    rewrite Hp, lookup_app in Hl.
    destruct (lookup (docElement d) p') as [par|] eqn:Hpar; [|discriminate].
    apply in_flat_map.
    exists {| pos := p'; elt := par |}. split.
    + apply descendants_In. exists (docNode d), p'. simpl. auto.
    + apply filter_In. split.
      * apply childNodes_In. exists i. simpl. auto.
      * simpl. rewrite Ht. apply String.eqb_refl.
Qed.

(** A search for [//tag] from the document returns the elements of the
    document with that tag, each once. *)
Lemma DocFindElements_any_depth d path tag :
  MustCompilePath path = [selectRoot; selectDescendants; selectChildrenByTag "" tag] ->
  NoDup (map pos (DocFindElements d path))
  /\ (forall n, In n (DocFindElements d path) <->
        pos n <> [] /\ lookup (docElement d) (pos n) = Some (elt n) /\ Tag (elt n) = tag).
Proof.
  intros Hpath. unfold DocFindElements, FindElements, FindElementsPath, traverse.
  rewrite Hpath. cbn [eval flat_map apply app]. rewrite !app_nil_r.
  change {| pos := []; elt := docElement d |} with (docNode d).
  assert (Hnd : NoDup (map pos (flat_map (apply (docElement d) (selectChildrenByTag "" tag))
                                  (descendants [docNode d])))).
  { apply candidates_NoDup. apply descendants_NoDup. simpl. split; [intros q []|exact I]. }
  rewrite (addResults_NoDup _ [] Hnd). simpl. split; [exact Hnd|].
  intros n. apply candidates_In.
Qed.

(** A sub-element that is missing is not found, and one that is found is a
    child with the tag asked for. *)
Lemma FindElement_child top n path tag :
  MustCompilePath path = [selectChildrenByTag "" tag] ->
  (forall c, FindElement top n path = Some c ->
     In c (childNodes n) /\ Tag (elt c) = tag)
  /\ ((forall c, In c (childNodes n) -> Tag (elt c) <> tag) ->
      FindElement top n path = None).
Proof.
  intros Hpath. unfold FindElement, FindElementPath, traverse.
  rewrite Hpath. cbn [eval flat_map apply]. rewrite app_nil_r.
  set (cands := filter _ _).
  pose proof (addResults_head cands) as Hh.
  assert (Hc : forall c, In c cands -> In c (childNodes n) /\ Tag (elt c) = tag).
  { intros c Hin. apply filter_In in Hin. destruct Hin as (Hin & Hf).
    split; [exact Hin|]. apply andb_true_iff in Hf. destruct Hf as (_ & Hf).
    apply String.eqb_eq in Hf. symmetry. exact Hf. }
  destruct (addResults cands []) as [|a l]; destruct cands as [|c r]; simpl in Hh;
    try discriminate.
  - split; [discriminate|]. reflexivity.
  - inversion Hh; subst a. split.
    + intros c' Hc'. inversion Hc'; subst c'. apply Hc. left. reflexivity.
    + intros Hmiss. exfalso. destruct (Hc c (or_introl eq_refl)) as (Hin & Ht).
      exact (Hmiss c Hin Ht).
Qed.

End etree_facts.


(** ** The reply decoder in closed form *)

(** All reported errors of a document, in the order the path search finds
    them. *)
Definition decodeErrors (d : etree.Document) : list RPCError :=
  map (decodeRPCError d) (etree.DocFindElements d "//rpc-error").

Definition hasOk (d : etree.Document) : bool :=
  match etree.DocFindElement d "//ok" with
  | Some _ => true
  | None => false
  end.

(** The reply built from the document read and the element taken as root. *)
Definition decodedReply (data : etree.Document) (root : etree.node) (id : string) : RPCReply :=
  let d := etree.SetRoot data root in
  {| Errors := decodeErrors d; Data := d; Ok := hasOk data; ReplyMessageID := id |}.

Definition classified (errs : list RPCError) (strict : bool) : option error :=
  option_map RPCErr (firstFailing errs strict).

Lemma fold_left_append {A B} (f : B -> A) (l : list B) (acc : list A) :
  fold_left (fun acc x => acc ++ [f x]) l acc = acc ++ map f l.
Proof.
  revert acc; induction l as [|x l IH]; intros acc; simpl.
  - rewrite app_nil_r. reflexivity.
  - rewrite IH, <- app_assoc. reflexivity.
Qed.

Section ReplyFacts.

Variable ReadFromBytes : etree.Document -> string -> etree.Document * option string.

Lemma newRPCReply_eq rawXML strict id :
  newRPCReply ReadFromBytes rawXML strict id =
  match ReadFromBytes etree.NewDocument rawXML with
  | (_, Some msg) => Return (None, Some (ReadError msg))
  | (data, None) =>
      match etree.DocFindElement data "rpc-reply" with
      | None => Panicked NilDereference
      | Some wrapper =>
          match etree.childNodes wrapper with
          | [] => Panicked (IndexOutOfRange 0 0)
          | root :: _ =>
              Return (Some (decodedReply data root id),
                      classified (decodeErrors (etree.SetRoot data root)) strict)
          end
      end
  end.
Proof.
  unfold newRPCReply. cbn [Data Errors].
  destruct (ReadFromBytes etree.NewDocument rawXML) as [data [msg|]]; [reflexivity|].
  unfold decodedReply, hasOk.
  cbn [withData withOk Data Errors Ok ReplyMessageID].
  destruct (etree.DocFindElement data "//ok") as [okEl|];
    cbn [withData withOk Data Errors Ok ReplyMessageID];
    (destruct (etree.DocFindElement data "rpc-reply") as [wrapper|]; [|reflexivity]);
    cbn [deref bind]; unfold etree.ChildElements, index;
    (destruct (etree.childNodes wrapper) as [|root rest]; [reflexivity|]);
    cbn [map nth_error bind]; cbv zeta;
    cbn [withData withErrors withMessageID Data Errors Ok ReplyMessageID];
    rewrite fold_left_append; cbn [app];
    fold (decodeErrors (etree.SetRoot data root)); unfold classified;
    (destruct (decodeErrors (etree.SetRoot data root)) as [|e es]; [reflexivity|]);
    destruct (firstFailing (e :: es) strict); reflexivity.
Qed.

(** What a returned reply tells about the run that built it. *)
Lemma newRPCReply_returns rawXML strict id reply err :
  newRPCReply ReadFromBytes rawXML strict id = Return (Some reply, err) ->
  exists data wrapper root rest,
    ReadFromBytes etree.NewDocument rawXML = (data, None)
    /\ etree.DocFindElement data "rpc-reply" = Some wrapper
    /\ etree.childNodes wrapper = root :: rest
    /\ reply = decodedReply data root id
    /\ err = classified (Errors reply) strict.
Proof.
  rewrite newRPCReply_eq.
  destruct (ReadFromBytes etree.NewDocument rawXML) as [data [msg|]] eqn:Hread; [discriminate|].
  destruct (etree.DocFindElement data "rpc-reply") as [wrapper|] eqn:Hfind; [|discriminate].
  destruct (etree.childNodes wrapper) as [|root rest] eqn:Hch; [discriminate|].
  intros H. inversion H; subst.
  exists data, wrapper, root, rest. repeat split; auto.
Qed.

(** The classification loop, for every list of errors. *)
Lemma firstFailing_Some errs strict re :
  firstFailing errs strict = Some re <->
  exists pre post,
    errs = pre ++ re :: post
    /\ (Severity re = "error" \/ strict = true)
    /\ Forall (fun x => Severity x <> "error" /\ strict = false) pre.
Proof.
  induction errs as [|e errs IH]; simpl.
  - split; [discriminate|]. intros (pre & post & H & _). destruct pre; discriminate.
  - destruct (String.eqb (Severity e) "error") eqn:Es; simpl.
    + apply String.eqb_eq in Es. split.
      * intros H; inversion H; subst. exists [], errs. simpl. repeat split; auto.
      * intros (pre & post & H & Hq & Hpre). destruct pre as [|x pre]; simpl in H.
        -- inversion H; reflexivity.
        -- inversion H; subst x. inversion Hpre as [|? ? [Hx _] _]; subst. contradiction.
    + apply String.eqb_neq in Es. destruct strict.
      * split.
        -- intros H; inversion H; subst. exists [], errs. simpl. repeat split; auto.
        -- intros (pre & post & H & Hq & Hpre). destruct pre as [|x pre]; simpl in H.
           ++ inversion H; reflexivity.
           ++ inversion Hpre as [|? ? [_ Hx] _]; subst. discriminate.
      * rewrite IH. split.
        -- intros (pre & post & H & Hq & Hpre). exists (e :: pre), post. subst errs.
           repeat split; auto.
        -- intros (pre & post & H & Hq & Hpre). destruct pre as [|x pre]; simpl in H.
           ++ inversion H; subst. destruct Hq; [contradiction | discriminate].
           ++ inversion H; subst. inversion Hpre; subst. exists pre, post. auto.
Qed.

Lemma firstFailing_None errs strict :
  firstFailing errs strict = None <->
  Forall (fun x => Severity x <> "error" /\ strict = false) errs.
Proof.
  induction errs as [|e errs IH]; simpl.
  - split; auto.
  - destruct (String.eqb (Severity e) "error") eqn:Es; simpl.
    + apply String.eqb_eq in Es. split; [discriminate|].
      intros H. inversion H as [|? ? [Hx _] _]; subst. contradiction.
    + apply String.eqb_neq in Es. destruct strict.
      * split; [discriminate|]. intros H. inversion H as [|? ? [_ Hx] _]. discriminate.
      * rewrite IH. split; [intros H; constructor; auto|]. intros H. inversion H; auto.
Qed.

(** C3: when the classification fails the call, [newRPCReply] returns, with
    the error, the reply itself: its document is the one read and re-rooted,
    its errors are all the errors decoded from that document, the failing
    one among them, and its identifier is the request's. *)
Theorem failed_call_returns_reply rawXML strict id r re :
  newRPCReply ReadFromBytes rawXML strict id = Return (r, Some (RPCErr re)) ->
  exists reply data wrapper root rest,
    r = Some reply
    /\ ReadFromBytes etree.NewDocument rawXML = (data, None)
    /\ etree.DocFindElement data "rpc-reply" = Some wrapper
    /\ etree.childNodes wrapper = root :: rest
    /\ Data reply = etree.SetRoot data root
    /\ Errors reply = decodeErrors (Data reply)
    /\ ReplyMessageID reply = id
    /\ firstFailing (Errors reply) strict = Some re
    /\ In re (Errors reply).
Proof.
  rewrite newRPCReply_eq.
  destruct (ReadFromBytes etree.NewDocument rawXML) as [data [msg|]] eqn:Hread; [discriminate|].
  destruct (etree.DocFindElement data "rpc-reply") as [wrapper|] eqn:Hfind; [|discriminate].
  destruct (etree.childNodes wrapper) as [|root rest] eqn:Hch; [discriminate|].
  intros H. inversion H as [[Hr Hc]]. clear H.
  exists (decodedReply data root id), data, wrapper, root, rest.
  unfold classified in Hc.
  destruct (firstFailing (decodeErrors (etree.SetRoot data root)) strict) as [re'|] eqn:Hf;
    [|discriminate].
  simpl in Hc. inversion Hc; subst re'.
  repeat split; try reflexivity; try assumption.
  apply firstFailing_Some in Hf. destruct Hf as (pre & post & Hf & _).
  simpl. rewrite Hf. apply in_or_app. right. left. reflexivity.
Qed.

(** C5: every reply [newRPCReply] returns, with or without an error, carries
    the identifier passed in. *)
Theorem reply_message_id rawXML strict id reply err :
  newRPCReply ReadFromBytes rawXML strict id = Return (Some reply, err) ->
  ReplyMessageID reply = id.
Proof.
  intros H. apply newRPCReply_returns in H.
  destruct H as (data & wrapper & root & rest & _ & _ & _ & -> & _). reflexivity.
Qed.

(** C7: the flag [Ok] of a decoded reply is set exactly when the document
    read has an element with the tag ok, at any depth. *)
Theorem ok_flag_iff_ok_element rawXML strict id data reply err :
  ReadFromBytes etree.NewDocument rawXML = (data, None) ->
  newRPCReply ReadFromBytes rawXML strict id = Return (Some reply, err) ->
  (Ok reply = true <->
   exists p e, p <> [] /\ etree.lookup (etree.docElement data) p = Some e
               /\ etree.Tag e = "ok").
Proof.
  intros Hread H. apply newRPCReply_returns in H.
  destruct H as (data' & wrapper & root & rest & Hread' & _ & _ & -> & _).
  rewrite Hread in Hread'. inversion Hread'; subst data'.
  rewrite <- (etree_facts.DocFindElement_any_depth data "//ok" "ok" eq_refl).
  simpl. unfold hasOk.
  destruct (etree.DocFindElement data "//ok") as [n|].
  - split; eauto.
  - split; [discriminate|]. intros [n Hn]. discriminate.
Qed.

(** C10: the return of the error for a missing root is unreachable: every
    pointer in the slice of child elements is non-nil, a document without
    the wrapper runs into a nil dereference and a wrapper without child
    elements into an index out of range. *)
Theorem cant_find_root_unreachable rawXML strict id :
  (forall r, newRPCReply ReadFromBytes rawXML strict id
             <> Return (r, Some (Errorf "can't find root")))
  /\ (forall wrapper root, In root (etree.ChildElements wrapper) -> root <> None)
  /\ (forall data,
        ReadFromBytes etree.NewDocument rawXML = (data, None) ->
        etree.DocFindElement data "rpc-reply" = None ->
        newRPCReply ReadFromBytes rawXML strict id = Panicked NilDereference)
  /\ (forall data wrapper,
        ReadFromBytes etree.NewDocument rawXML = (data, None) ->
        etree.DocFindElement data "rpc-reply" = Some wrapper ->
        etree.ChildElements wrapper = [] ->
        newRPCReply ReadFromBytes rawXML strict id = Panicked (IndexOutOfRange 0 0)).
Proof.
  repeat split.
  - intros r. rewrite newRPCReply_eq.
    destruct (ReadFromBytes etree.NewDocument rawXML) as [data [msg|]]; [discriminate|].
    destruct (etree.DocFindElement data "rpc-reply") as [wrapper|]; [|discriminate].
    destruct (etree.childNodes wrapper) as [|root rest]; [discriminate|].
    unfold classified.
    destruct (firstFailing (decodeErrors (etree.SetRoot data root)) strict); discriminate.
  - intros wrapper root Hin. unfold etree.ChildElements in Hin.
    apply in_map_iff in Hin. destruct Hin as (n & <- & _). discriminate.
  - intros data Hread Hfind. rewrite newRPCReply_eq, Hread, Hfind. reflexivity.
  - intros data wrapper Hread Hfind Hch. rewrite newRPCReply_eq, Hread, Hfind.
    unfold etree.ChildElements in Hch. apply map_eq_nil in Hch. rewrite Hch. reflexivity.
Qed.

(** The errors of a returned reply are the elements with the tag rpc-error
    of the re-rooted document, one error for each, and a sub-element that
    an entry lacks gives the empty string. *)
Theorem decoded_errors_of_rerooted_document rawXML strict id reply err :
  newRPCReply ReadFromBytes rawXML strict id = Return (Some reply, err) ->
  exists found,
    Errors reply = map (decodeRPCError (Data reply)) found
    /\ NoDup (map etree.pos found)
    /\ (forall n, In n found <->
          etree.pos n <> []
          /\ etree.lookup (etree.docElement (Data reply)) (etree.pos n) = Some (etree.elt n)
          /\ etree.Tag (etree.elt n) = "rpc-error")
    /\ (forall n,
          ((forall c, In c (etree.childNodes n) -> etree.Tag (etree.elt c) <> "error-type") ->
           Type_ (decodeRPCError (Data reply) n) = "")
          /\ ((forall c, In c (etree.childNodes n) -> etree.Tag (etree.elt c) <> "error-tag") ->
              Tag (decodeRPCError (Data reply) n) = "")
          /\ ((forall c, In c (etree.childNodes n) ->
                 etree.Tag (etree.elt c) <> "error-severity") ->
              Severity (decodeRPCError (Data reply) n) = "")
          /\ ((forall c, In c (etree.childNodes n) -> etree.Tag (etree.elt c) <> "error-path") ->
              Path (decodeRPCError (Data reply) n) = "")
          /\ ((forall c, In c (etree.childNodes n) ->
                 etree.Tag (etree.elt c) <> "error-message") ->
              Message (decodeRPCError (Data reply) n) = "")).
Proof.
  intros H. apply newRPCReply_returns in H.
  destruct H as (data & wrapper & root & rest & _ & _ & _ & -> & _).
  cbn [decodedReply Errors Data].
  set (d := etree.SetRoot data root).
  exists (etree.DocFindElements d "//rpc-error").
  destruct (etree_facts.DocFindElements_any_depth d "//rpc-error" "rpc-error" eq_refl)
    as (Hnd & Hin).
  split; [reflexivity|]. split; [exact Hnd|]. split; [exact Hin|].
  intros n. unfold decodeRPCError. cbn [Type_ Tag Severity Path Message].
  repeat split; intros Hmiss;
    match goal with
    | |- safeText (etree.FindElement _ _ ?path) = _ =>
        rewrite (proj2 (etree_facts.FindElement_child (etree.docElement d) n path _ eq_refl)
                   Hmiss)
    end; reflexivity.
Qed.

End ReplyFacts.

(** C1: on the reply that is only the wrapper, [newRPCReply] does not return
    the structural error: indexing the empty slice of child elements panics
    before the nil test is reached. *)
Theorem rootless_reply_panics
  (ReadFromBytes : etree.Document -> string -> etree.Document * option string)
  (strict : bool) (id : string) :
  ReadFromBytes etree.NewDocument rawRootless = (docRootless, None) ->
  newRPCReply ReadFromBytes rawRootless strict id = Panicked (IndexOutOfRange 0 0).
Proof.
  intros Hread. rewrite newRPCReply_eq, Hread. reflexivity.
Qed.

Lemma rootless_reply_panics_witness :
  sampleReader etree.NewDocument rawRootless = (docRootless, None)
  /\ newRPCReply sampleReader rawRootless false "101" = Panicked (IndexOutOfRange 0 0).
Proof.
  split; [reflexivity|].
  apply (rootless_reply_panics sampleReader false "101"). reflexivity.
Defined.

(** C8: on a reply with two reported errors directly under the wrapper, the
    document is re-rooted onto the first of them before the errors are
    searched, so one error is decoded where the reply has two, and the call
    succeeds although the second has the severity error. *)
Theorem sibling_errors_dropped
  (ReadFromBytes : etree.Document -> string -> etree.Document * option string)
  (id : string) :
  ReadFromBytes etree.NewDocument rawTwoErrors = (docTwoErrors, None) ->
  List.length (etree.DocFindElements docTwoErrors "//rpc-error") = 2
  /\ newRPCReply ReadFromBytes rawTwoErrors false id
     = Return (Some (withMessageID twoErrorsReply id), None)
  /\ List.length (Errors twoErrorsReply) = 1.
Proof.
  intros Hread. split; [reflexivity|]. split; [|reflexivity].
  rewrite newRPCReply_eq, Hread. reflexivity.
Qed.

Lemma sibling_errors_dropped_witness :
  sampleReader etree.NewDocument rawTwoErrors = (docTwoErrors, None)
  /\ newRPCReply sampleReader rawTwoErrors false "101" = Return (Some twoErrorsReply, None).
Proof.
  split; [reflexivity|].
  apply (sibling_errors_dropped sampleReader "101"). reflexivity.
Defined.

Lemma failed_call_returns_reply_witness :
  newRPCReply sampleReader rawResults false "7"
    = Return (Some resultsReply, Some (RPCErr (mkError "error" "second")))
  /\ exists reply data wrapper root rest,
       Some resultsReply = Some reply
       /\ sampleReader etree.NewDocument rawResults = (data, None)
       /\ etree.DocFindElement data "rpc-reply" = Some wrapper
       /\ etree.childNodes wrapper = root :: rest
       /\ Data reply = etree.SetRoot data root
       /\ Errors reply = decodeErrors (Data reply)
       /\ ReplyMessageID reply = "7"
       /\ firstFailing (Errors reply) false = Some (mkError "error" "second")
       /\ In (mkError "error" "second") (Errors reply).
Proof.
  split; [reflexivity|].
  apply (failed_call_returns_reply sampleReader rawResults false "7").
  reflexivity.
Defined.

Lemma reply_message_id_witness :
  newRPCReply sampleReader rawData false "ID" = Return (Some dataReply, None)
  /\ ReplyMessageID dataReply = "ID".
Proof.
  split; [reflexivity|].
  apply (reply_message_id sampleReader rawData false "ID" dataReply None). reflexivity.
Defined.

Lemma ok_flag_iff_ok_element_witness :
  sampleReader etree.NewDocument rawResults = (docResults, None)
  /\ newRPCReply sampleReader rawResults false "7"
     = Return (Some resultsReply, Some (RPCErr (mkError "error" "second")))
  /\ (Ok resultsReply = true <->
      exists p e, p <> [] /\ etree.lookup (etree.docElement docResults) p = Some e
                  /\ etree.Tag e = "ok").
Proof.
  split; [reflexivity|]. split; [reflexivity|].
  apply (ok_flag_iff_ok_element sampleReader rawResults false "7" docResults resultsReply
           (Some (RPCErr (mkError "error" "second")))); reflexivity.
Defined.

Lemma cant_find_root_unreachable_witness :
  newRPCReply sampleReader rawNoWrapper false "1" = Panicked NilDereference
  /\ newRPCReply sampleReader rawRootless false "1" = Panicked (IndexOutOfRange 0 0).
Proof.
  split.
  - apply (proj1 (proj2 (proj2 (cant_find_root_unreachable sampleReader rawNoWrapper false "1")))
             docNoWrapper); reflexivity.
  - apply (proj2 (proj2 (proj2 (cant_find_root_unreachable sampleReader rawRootless false "1")))
             docRootless {| etree.pos := [0];
                            etree.elt := {| etree.Space := ""; etree.Tag := "rpc-reply";
                                            etree.Attrs := [ {| etree.AttrSpace := "";
                                                                etree.AttrKey := "message-id";
                                                                etree.AttrValue := "101" |} ];
                                            etree.Child := [] |} |}); reflexivity.
Defined.

(** ** Identifiers *)

Definition isHexDigit (c : ascii) : bool :=
  existsb (Ascii.eqb c) (list_ascii_of_string ldigits).

Definition isHex (s : string) : Prop :=
  Forall (fun c => isHexDigit c = true) (list_ascii_of_string s).

Lemma hexDigit_isHex n : isHexDigit (hexDigit n) = true.
Proof.
  unfold hexDigit. generalize (N.to_nat n). intros k.
  do 16 (destruct k as [|k]; [reflexivity|]). reflexivity.
Qed.

Lemma isHex_app s t : isHex s -> isHex t -> isHex (s +++ t).
Proof.
  unfold isHex. induction s as [|c s IH]; simpl; intros Hs Ht; [exact Ht|].
  inversion Hs; subst. constructor; auto.
Qed.

Lemma hexByte_isHex b : isHex (hexByte b).
Proof.
  unfold isHex, hexByte. simpl. repeat constructor; apply hexDigit_isHex.
Qed.

Lemma hexBytes_isHex l : isHex (hexBytes l).
Proof.
  induction l as [|b l IH]; cbn [hexBytes]; [constructor|].
  apply isHex_app; [apply hexByte_isHex | exact IH].
Qed.

Lemma hexBytes_length l : String.length (hexBytes l) = 2 * List.length l.
Proof. induction l as [|b l IH]; simpl; [reflexivity | rewrite IH; lia]. Qed.

(** The two patched bytes: the high nibble of the first is 4, the two high
    bits of the second are 1 and 0; the remaining bits are the source's. *)
Lemma version_byte c :
  hexByte (bor (band c 15) 64)
    = String "4" (String (hexDigit (N.land (N_of_ascii c) 15)) "").
Proof. destruct c as [[] [] [] [] [] [] [] []]; reflexivity. Qed.

Lemma variant_byte c :
  exists h, In h ["8"; "9"; "a"; "b"]%char
    /\ hexByte (bor (band c 63) 128)
       = String h (String (hexDigit (N.land (N_of_ascii c) 15)) "").
Proof.
  destruct c as [[] [] [] [] [] [] [] []]; eexists; (split; [|reflexivity]); simpl; tauto.
Qed.

Lemma ReadFull_length rand buf : List.length (fst (ReadFull rand buf)) = List.length buf.
Proof.
  unfold ReadFull. simpl. rewrite length_app, length_firstn, length_skipn. lia.
Qed.

Lemma ReadFull_nth rand buf i :
  i < List.length buf -> i < List.length rand ->
  nth i (fst (ReadFull rand buf)) zeroByte = nth i rand zeroByte.
Proof.
  intros Hb Hr. unfold ReadFull. simpl.
  rewrite app_nth1 by (rewrite length_firstn; lia).
  rewrite nth_firstn. destruct (Nat.ltb_spec i (List.length buf)); [reflexivity | lia].
Qed.

Lemma ReadFull_rest rand buf : snd (ReadFull rand buf) = skipn (List.length buf) rand.
Proof. reflexivity. Qed.

Lemma version_low_bits c :
  N.land (N_of_ascii (bor (band c 15) 64)) 15 = N.land (N_of_ascii c) 15.
Proof. destruct c as [[] [] [] [] [] [] [] []]; reflexivity. Qed.

Lemma variant_low_bits c :
  N.land (N_of_ascii (bor (band c 63) 128)) 63 = N.land (N_of_ascii c) 63.
Proof. destruct c as [[] [] [] [] [] [] [] []]; reflexivity. Qed.

(** The identifier as a function of the sixteen bytes of the buffer. *)
Lemma uuid_eq rand :
  uuid rand =
  (let b := fst (ReadFull rand (repeat zeroByte 16)) in
   let b := setByte b 6 (bor (band (getByte b 6) 15) 64) in
   let b := setByte b 8 (bor (band (getByte b 8) 63) 128) in
   hexBytes (slice b 0 4) +++ "-" +++ hexBytes (slice b 4 6) +++ "-" +++
   hexBytes (slice b 6 8) +++ "-" +++ hexBytes (slice b 8 10) +++ "-" +++
   hexBytes (skipn 10 b),
   skipn 16 rand).
Proof. reflexivity. Qed.

(** C9: for every state of the random source the identifier is 36
    characters long: five groups of 8, 4, 4, 4 and 12 lower-case
    hexadecimal digits joined by hyphens, the digits of sixteen bytes; the
    third group starts with 4, the fourth with 8, 9, a or b; the other bits
    are the bytes the source delivered, and sixteen bytes of the source are
    consumed. *)
Theorem uuid_shape (rand : Reader) :
  exists (b : list ascii) (g1 g2 g3 g4 g5 : string),
    fst (uuid rand) = g1 +++ "-" +++ g2 +++ "-" +++ g3 +++ "-" +++ g4 +++ "-" +++ g5
    /\ String.length (fst (uuid rand)) = 36
    /\ (String.length g1 = 8 /\ String.length g2 = 4 /\ String.length g3 = 4
        /\ String.length g4 = 4 /\ String.length g5 = 12)
    /\ (isHex g1 /\ isHex g2 /\ isHex g3 /\ isHex g4 /\ isHex g5)
    /\ String.get 0 g3 = Some "4"%char
    /\ (exists h, In h ["8"; "9"; "a"; "b"]%char /\ String.get 0 g4 = Some h)
    /\ List.length b = 16
    /\ (g1 = hexBytes (slice b 0 4) /\ g2 = hexBytes (slice b 4 6)
        /\ g3 = hexBytes (slice b 6 8) /\ g4 = hexBytes (slice b 8 10)
        /\ g5 = hexBytes (skipn 10 b))
    /\ (forall i, i < 16 -> i < List.length rand -> i <> 6 -> i <> 8 ->
          nth i b zeroByte = nth i rand zeroByte)
    /\ (6 < List.length rand ->
          N.land (N_of_ascii (nth 6 b zeroByte)) 15
          = N.land (N_of_ascii (nth 6 rand zeroByte)) 15)
    /\ (8 < List.length rand ->
          N.land (N_of_ascii (nth 8 b zeroByte)) 63
          = N.land (N_of_ascii (nth 8 rand zeroByte)) 63)
    /\ snd (uuid rand) = skipn 16 rand.
Proof.
  rewrite uuid_eq. cbv zeta. cbn [fst snd].
  pose proof (ReadFull_length rand (repeat zeroByte 16)) as Hlen.
  rewrite repeat_length in Hlen.
  assert (Hnth : forall i, i < 16 -> i < List.length rand ->
            nth i (fst (ReadFull rand (repeat zeroByte 16))) zeroByte = nth i rand zeroByte).
  { intros i Hi Hr. apply ReadFull_nth; [rewrite repeat_length; exact Hi | exact Hr]. }
  destruct (fst (ReadFull rand (repeat zeroByte 16))) as [|b0 buf]; [discriminate|].
  destruct buf as [|b1 buf]; [discriminate|]. destruct buf as [|b2 buf]; [discriminate|].
  destruct buf as [|b3 buf]; [discriminate|]. destruct buf as [|b4 buf]; [discriminate|].
  destruct buf as [|b5 buf]; [discriminate|]. destruct buf as [|b6 buf]; [discriminate|].
  destruct buf as [|b7 buf]; [discriminate|]. destruct buf as [|b8 buf]; [discriminate|].
  destruct buf as [|b9 buf]; [discriminate|]. destruct buf as [|b10 buf]; [discriminate|].
  destruct buf as [|b11 buf]; [discriminate|]. destruct buf as [|b12 buf]; [discriminate|].
  destruct buf as [|b13 buf]; [discriminate|]. destruct buf as [|b14 buf]; [discriminate|].
  destruct buf as [|b15 buf]; [discriminate|].
  destruct buf; [|discriminate]. clear Hlen.
  cbn [setByte getByte nth slice skipn firstn Nat.sub hexBytes].
  destruct (variant_byte b8) as (h & Hh & Hvar).
  eexists [b0; b1; b2; b3; b4; b5; bor (band b6 15) 64; b7; bor (band b8 63) 128;
           b9; b10; b11; b12; b13; b14; b15].
  eexists (hexBytes [b0; b1; b2; b3]), (hexBytes [b4; b5]),
          (hexBytes [bor (band b6 15) 64; b7]), (hexBytes [bor (band b8 63) 128; b9]),
          (hexBytes [b10; b11; b12; b13; b14; b15]).
  split; [reflexivity|].
  split; [reflexivity|].
  split; [repeat split; reflexivity|].
  split; [repeat split; apply hexBytes_isHex|].
  split; [cbn [hexBytes]; rewrite version_byte; reflexivity|].
  split; [exists h; split; [exact Hh|]; cbn [hexBytes]; rewrite Hvar; reflexivity|].
  split; [reflexivity|].
  split; [repeat split; reflexivity|].
  split.
  { intros i Hi Hr H6 H8. rewrite <- (Hnth i Hi Hr).
    do 16 (destruct i as [|i]; [try reflexivity; contradiction|]). lia. }
  split.
  { intros Hr. rewrite <- (Hnth 6) by lia. cbn [nth]. apply version_low_bits. }
  split.
  { intros Hr. rewrite <- (Hnth 8) by lia. cbn [nth]. apply variant_low_bits. }
  reflexivity.
Qed.

(** ** The request envelope *)

Lemma append_assoc (a b c : string) : (a +++ b) +++ c = a +++ b +++ c.
Proof. induction a as [|x a IH]; simpl; [reflexivity | rewrite IH; reflexivity]. Qed.

Lemma append_nil_r (a : string) : a +++ "" = a.
Proof. induction a as [|x a IH]; simpl; [reflexivity | rewrite IH; reflexivity]. Qed.

Lemma list_ascii_of_append (a b : string) :
  list_ascii_of_string (a +++ b) = list_ascii_of_string a ++ list_ascii_of_string b.
Proof. induction a as [|x a IH]; simpl; [reflexivity | rewrite IH; reflexivity]. Qed.

(** The request element in the words of the specification: the element
    rpc with the identifier, written as an attribute value, and the fixed
    namespace, around the fragments in their order. *)
Definition rpcElement (id : string) (fragments : list string) : string :=
  "<rpc message-id=" +++ Q +++ xml.EscapeString id +++ Q +++
  " xmlns=" +++ Q +++ "urn:ietf:params:xml:ns:netconf:base:1.0" +++ Q +++ ">" +++
  concatStrings fragments +++ "</rpc>".

(** What [Exec] does once the request bytes are built. *)
Definition exchange {T} `{TransportOps T}
  (ReadFromBytes : etree.Document -> string -> etree.Document * option string)
  (m : RPCMessage) (s : Session T) (request : string)
  : exec error (Session T * (option RPCReply * option error)) :=
  let '(t, err) := Send (Transport s) request in
  let s := withTransport s t in
  match err with
  | Some err => Return (s, (None, Some err))
  | None =>
      let '(t, (rawXML, err)) := Receive (Transport s) in
      let s := withTransport s t in
      match err with
      | Some err => Return (s, (None, Some err))
      | None =>
          r <- newRPCReply ReadFromBytes rawXML (ErrOnWarning s) (MessageID m) ;;
          let '(reply, err) := r in
          match err with
          | Some err => Return (s, (None, Some err))
          | None => Return (s, (reply, None))
          end
      end
  end.

(** A byte that [EscapeString] copies: printable ASCII other than the five
    characters with an entity. *)
Definition plainByte (c : ascii) : bool :=
  let n := N_of_ascii c in
  (N.leb 32 n && N.ltb n 127
   && negb (N.eqb n 34) && negb (N.eqb n 38) && negb (N.eqb n 39)
   && negb (N.eqb n 60) && negb (N.eqb n 62))%bool.

Definition plainString (s : string) : Prop :=
  Forall (fun c => plainByte c = true) (list_ascii_of_string s).

Lemma fold_left_marshal (methods : list RPCMethod) (buf : string) :
  fold_left (fun buf method => buf +++ marshalMethod method) methods buf
  = buf +++ concatStrings (map marshalMethod methods).
Proof.
  revert buf; induction methods as [|m l IH]; intros buf; simpl.
  - rewrite append_nil_r. reflexivity.
  - rewrite IH, append_assoc. reflexivity.
Qed.

Lemma Marshal_eq (m : RPCMessage) :
  Marshal m = (rpcElement (MessageID m) (map marshalMethod (Methods m)), None).
Proof.
  unfold Marshal, MarshalXML, EncodeElement, xml.writeStart, xml.writeEnd, xml.defaultStart.
  cbn [xml.SName xml.SAttr xml.Local xml.NameSpace app xml.writeAttrs
       xml.AttrName xml.Value dataMessageID dataXmlns dataMethods].
  rewrite fold_left_marshal.
  change (String.eqb "rpc" "") with false.
  change (String.eqb "" "") with true.
  change (String.eqb "message-id" "") with false.
  change (String.eqb "xmlns" "") with false.
  cbv iota.
  change (xml.EscapeString "urn:ietf:params:xml:ns:netconf:base:1.0")
    with "urn:ietf:params:xml:ns:netconf:base:1.0".
  unfold rpcElement. rewrite !append_assoc. reflexivity.
Qed.

Lemma decode_plain c s :
  plainByte c = true -> utf8.DecodeRuneInString (String c s) = (N_of_ascii c, 1).
Proof.
  intros H. destruct c as [[] [] [] [] [] [] [] []];
    first [discriminate H | reflexivity].
Qed.

Lemma escapeOf_plain c : plainByte c = true -> xml.escapeOf (N_of_ascii c) 1 = None.
Proof.
  intros H. destruct c as [[] [] [] [] [] [] [] []];
    first [discriminate H | reflexivity].
Qed.

Lemma EscapeString_plain s : plainString s -> xml.EscapeString s = s.
Proof.
  unfold plainString, xml.EscapeString.
  induction s as [|c s IH]; intros H; [reflexivity|].
  simpl in H. inversion H as [|? ? Hc Hs]; subst.
  cbn [xml.escapeFrom]. rewrite (decode_plain c s Hc), (escapeOf_plain c Hc).
  cbn [Nat.sub]. rewrite (IH Hs). reflexivity.
Qed.

Lemma isHexDigit_plain c : isHexDigit c = true -> plainByte c = true.
Proof.
  destruct c as [[] [] [] [] [] [] [] []]; intros H;
    first [discriminate H | reflexivity].
Qed.

Lemma isHex_plain s : isHex s -> plainString s.
Proof.
  unfold isHex, plainString. intros H.
  apply Forall_impl with (2 := H). intros c. apply isHexDigit_plain.
Qed.

Lemma plainString_app s t : plainString s -> plainString t -> plainString (s +++ t).
Proof.
  unfold plainString. rewrite list_ascii_of_append. intros Hs Ht.
  apply Forall_app. split; assumption.
Qed.

Lemma uuid_plain rand : plainString (fst (uuid rand)).
Proof.
  rewrite uuid_eq. cbv zeta. cbn [fst].
  assert (Hd : plainString "-") by (repeat constructor).
  repeat (apply plainString_app;
          [first [exact Hd | apply isHex_plain; apply hexBytes_isHex]|]).
  apply isHex_plain. apply hexBytes_isHex.
Qed.

(** C6: the bytes [Marshal] builds for a message are the element rpc with
    the identifier as the value of message-id, the fixed namespace, and the
    rendered methods in their order; [Exec] sends them after [xml.Header];
    nothing but the message enters them.  The identifier is written as an
    attribute value; one without characters to escape, as every identifier
    of [NewRPCMessage] is, stands there as it is. *)
Theorem request_envelope (m : RPCMessage) :
  Marshal m = (rpcElement (MessageID m) (map marshalMethod (Methods m)), None)
  /\ (forall ReadFromBytes T (ops : TransportOps T) (s : Session T),
        Exec ReadFromBytes m s
        = exchange ReadFromBytes m s
            (xml.Header +++ rpcElement (MessageID m) (map marshalMethod (Methods m))))
  /\ (plainString (MessageID m) ->
      rpcElement (MessageID m) (map marshalMethod (Methods m))
      = "<rpc message-id=" +++ Q +++ MessageID m +++ Q +++
        " xmlns=" +++ Q +++ "urn:ietf:params:xml:ns:netconf:base:1.0" +++ Q +++ ">" +++
        concatStrings (map marshalMethod (Methods m)) +++ "</rpc>")
  /\ (forall rand methods,
        m = fst (NewRPCMessage rand methods) -> plainString (MessageID m)).
Proof.
  split; [apply Marshal_eq|]. split; [|split].
  - intros R T ops s. unfold Exec. rewrite Marshal_eq. reflexivity.
  - intros Hplain. unfold rpcElement. rewrite (EscapeString_plain _ Hplain). reflexivity.
  - intros rand methods ->. unfold NewRPCMessage, msgID.
    pose proof (uuid_plain rand) as Hp.
    destruct (uuid rand) as [id rand']. exact Hp.
Qed.

Lemma request_envelope_witness :
  plainString (MessageID getMessage)
  /\ rpcElement (MessageID getMessage) (map marshalMethod (Methods getMessage))
     = "<rpc message-id=" +++ Q +++ "ID" +++ Q +++
       " xmlns=" +++ Q +++ "urn:ietf:params:xml:ns:netconf:base:1.0" +++ Q +++ ">" +++
       "<get><filter type=" +++ Q +++ "subtree" +++ Q +++ "><x/></filter></get>" +++ "</rpc>".
Proof.
  assert (H : plainString (MessageID getMessage)) by (repeat constructor).
  split; [exact H|].
  apply (proj1 (proj2 (proj2 (request_envelope getMessage))) H).
Defined.

(** ** Credentials *)

(** C4, as the code has it: when the key loader returns an error, [Config]
    of either key credential panics with that error, and it returns the
    loader's configuration only when the loader returns no error; [Config]
    has no error result. *)
Theorem public_key_config_outcome
  (ClientConfig : Type)
  (loadFile : string -> string -> option ClientConfig * option error)
  (loadText : string -> string -> string -> option ClientConfig * option error)
  (p : PublicKey) (q : PublicKeyText) :
  (forall cfg e, loadFile (User p) (File p) = (cfg, Some e) ->
     PublicKey_Config ClientConfig loadFile p = Panicked (PanicValue e))
  /\ (forall cfg, loadFile (User p) (File p) = (cfg, None) ->
        PublicKey_Config ClientConfig loadFile p = Return cfg)
  /\ (forall cfg e, loadText (KeyUser q) (Key q) LF = (cfg, Some e) ->
        PublicKeyText_Config ClientConfig loadText q = Panicked (PanicValue e))
  /\ (forall cfg, loadText (KeyUser q) (Key q) LF = (cfg, None) ->
        PublicKeyText_Config ClientConfig loadText q = Return cfg).
Proof.
  unfold PublicKey_Config, PublicKeyText_Config.
  repeat split; intros; rewrite H; reflexivity.
Qed.

Lemma public_key_config_outcome_witness :
  PublicKey_Config unit rejectingLoader adminKeyFile = Panicked (PanicValue noKeyFound)
  /\ PublicKey_Config unit acceptingLoader adminKeyFile = Return (Some tt).
Proof.
  split.
  - apply (proj1 (public_key_config_outcome unit rejectingLoader rejectingTextLoader
                    adminKeyFile adminKeyText) None noKeyFound).
    reflexivity.
  - apply (proj1 (proj2 (public_key_config_outcome unit acceptingLoader acceptingTextLoader
                           adminKeyFile adminKeyText)) (Some tt)).
    reflexivity.
Defined.

(** C4 as stated fails: with a loader that rejects the key, neither
    credential returns from [Config]; the call panics. *)
Lemma public_key_config_panics :
  rejectingLoader (User adminKeyFile) (File adminKeyFile) = (None, Some noKeyFound)
  /\ PublicKey_Config unit rejectingLoader adminKeyFile = Panicked (PanicValue noKeyFound)
  /\ PublicKeyText_Config unit rejectingTextLoader adminKeyText
     = Panicked (PanicValue noKeyFound)
  /\ ~ (exists r, PublicKey_Config unit rejectingLoader adminKeyFile = Return r)
  /\ ~ (exists r, PublicKeyText_Config unit rejectingTextLoader adminKeyText = Return r).
Proof.
  repeat split; try reflexivity; intros [r Hr]; discriminate Hr.
Qed.

Lemma decoded_errors_of_rerooted_document_witness :
  newRPCReply sampleReader rawTwoErrors false "101" = Return (Some twoErrorsReply, None)
  /\ exists found,
       Errors twoErrorsReply = map (decodeRPCError (Data twoErrorsReply)) found
       /\ List.length found = 1.
Proof.
  split; [reflexivity|].
  destruct (decoded_errors_of_rerooted_document sampleReader rawTwoErrors false "101"
              twoErrorsReply None eq_refl) as (found & Herrs & _).
  exists found. split; [exact Herrs|].
  apply (f_equal (@List.length RPCError)) in Herrs. rewrite length_map in Herrs.
  symmetry. exact Herrs.
Defined.

(** ** The caller *)

(** When the reply is decoded with an error, [Exec] returns the error and a
    nil reply: the reply that [newRPCReply] built does not reach the caller
    of [Exec]. *)
Theorem Exec_returns_error_without_reply
  (ReadFromBytes : etree.Document -> string -> etree.Document * option string)
  (T : Type) (ops : TransportOps T) (m : RPCMessage) (s : Session T)
  (t1 t2 : T) (rawXML : string) (reply : option RPCReply) (e : error) :
  Send (Transport s) (xml.Header +++ rpcElement (MessageID m) (map marshalMethod (Methods m)))
    = (t1, None) ->
  Receive t1 = (t2, (rawXML, None)) ->
  newRPCReply ReadFromBytes rawXML (ErrOnWarning s) (MessageID m) = Return (reply, Some e) ->
  Exec ReadFromBytes m s = Return (withTransport s t2, (None, Some e)).
Proof.
  intros Hsend Hrecv Hreply.
  unfold Exec. rewrite Marshal_eq.
  rewrite Hsend. cbn [withTransport Transport ErrOnWarning]. rewrite Hrecv.
  cbn [withTransport Transport ErrOnWarning]. rewrite Hreply. reflexivity.
Qed.

Lemma Exec_returns_error_without_reply_witness :
  newRPCReply sampleReader rawLocked false "ID"
    = Return (Some (withMessageID (decodedReply docLocked
                                     {| etree.pos := [0; 0];
                                        etree.elt :=
                                          {| etree.Space := ""; etree.Tag := "rpc-error";
                                             etree.Attrs := [];
                                             etree.Child :=
                                               [elem "error-severity" [text "error"];
                                                elem "error-message" [text "locked"]] |} |}
                                     "ID") "ID"),
              Some (RPCErr (mkError "error" "locked")))
  /\ Exec sampleReader getMessage lockedSession
     = Return ({| Transport :=
                    {| sent := [xml.Header +++ rpcElement "ID"
                                  [marshalMethod (asMethod (MethodGet "subtree" "<x/>"))]];
                       incoming := [] |};
                  ErrOnWarning := false |},
               (None, Some (RPCErr (mkError "error" "locked")))).
Proof.
  split; [reflexivity|].
  apply (Exec_returns_error_without_reply sampleReader cannedTransport cannedTransport_ops
           getMessage lockedSession
           {| sent := [xml.Header +++ rpcElement "ID"
                         [marshalMethod (asMethod (MethodGet "subtree" "<x/>"))]];
              incoming := [rawLocked] |}
           {| sent := [xml.Header +++ rpcElement "ID"
                         [marshalMethod (asMethod (MethodGet "subtree" "<x/>"))]];
              incoming := [] |}
           rawLocked
           (Some (withMessageID (decodedReply docLocked
                                     {| etree.pos := [0; 0];
                                        etree.elt :=
                                          {| etree.Space := ""; etree.Tag := "rpc-error";
                                             etree.Attrs := [];
                                             etree.Child :=
                                               [elem "error-severity" [text "error"];
                                                elem "error-message" [text "locked"]] |} |}
                                     "ID") "ID"))
           (RPCErr (mkError "error" "locked"))); reflexivity.
Defined.

(** * Further properties *)

(** ** [Exec], path by path *)

(** A transport whose connection is closed: nothing can be sent. *)
Inductive closedTransport := Closed.

#[export] Instance closedTransport_ops : TransportOps closedTransport :=
  {| Send := fun t _ => (t, Some (TransportError "closed"));
     Receive := fun t => (t, ("", Some (TransportError "closed"))) |}.

Definition closedSession : Session closedTransport :=
  {| Transport := Closed; ErrOnWarning := false |}.

(** Sessions over the recording transport: one with no reply to hand out,
    one for each sample reply. *)
Definition silentSession : Session cannedTransport :=
  {| Transport := {| sent := []; incoming := [] |}; ErrOnWarning := false |}.

Definition sessionWith (reply : string) (strict : bool) : Session cannedTransport :=
  {| Transport := {| sent := []; incoming := [reply] |}; ErrOnWarning := strict |}.

(** The request bytes of a message. *)
Definition requestBytes (m : RPCMessage) : string :=
  xml.Header +++ rpcElement (MessageID m) (map marshalMethod (Methods m)).

Section ExecFacts.

Variable ReadFromBytes : etree.Document -> string -> etree.Document * option string.
Context {T : Type} {ops : TransportOps T}.

Lemma Exec_eq (m : RPCMessage) (s : Session T) :
  Exec ReadFromBytes m s =
  match Send (Transport s) (requestBytes m) with
  | (t1, Some e) => Return (withTransport s t1, (None, Some e))
  | (t1, None) =>
      match Receive t1 with
      | (t2, (_, Some e)) => Return (withTransport s t2, (None, Some e))
      | (t2, (rawXML, None)) =>
          match newRPCReply ReadFromBytes rawXML (ErrOnWarning s) (MessageID m) with
          | Return (_, Some e) => Return (withTransport s t2, (None, Some e))
          | Return (reply, None) => Return (withTransport s t2, (reply, None))
          | Panicked p => Panicked p
          end
      end
  end.
Proof.
  unfold Exec, requestBytes. rewrite Marshal_eq.
  destruct (Send (Transport s) _) as [t1 [e|]]; [reflexivity|].
  cbn [withTransport Transport ErrOnWarning].
  destruct (Receive t1) as [t2 [rawXML [e|]]]; [reflexivity|].
  cbn [withTransport Transport ErrOnWarning].
  destruct (newRPCReply ReadFromBytes rawXML (ErrOnWarning s) (MessageID m))
    as [[reply [e|]]|p]; reflexivity.
Qed.

(** A transport failure ends the call at once: a failed send returns its
    error with the channel as the send left it, so nothing is received and
    nothing is sent again; a failed receive returns its error likewise.  No
    reply is returned in either case. *)
Theorem Exec_transport_failure (m : RPCMessage) (s : Session T) :
  (forall t1 e,
     Send (Transport s) (requestBytes m) = (t1, Some e) ->
     Exec ReadFromBytes m s = Return (withTransport s t1, (None, Some e)))
  /\ (forall t1 t2 rawXML e,
        Send (Transport s) (requestBytes m) = (t1, None) ->
        Receive t1 = (t2, (rawXML, Some e)) ->
        Exec ReadFromBytes m s = Return (withTransport s t2, (None, Some e))).
Proof.
  split.
  - intros t1 e Hsend. rewrite Exec_eq, Hsend. reflexivity.
  - intros t1 t2 rawXML e Hsend Hrecv. rewrite Exec_eq, Hsend, Hrecv. reflexivity.
Qed.

(** Whatever [Exec] returns, it is a reply or an error, never both and
    never neither. *)
Theorem Exec_reply_xor_error (m : RPCMessage) (s s' : Session T)
  (reply : option RPCReply) (err : option error) :
  Exec ReadFromBytes m s = Return (s', (reply, err)) ->
  (reply = None /\ exists e, err = Some e) \/ (err = None /\ exists r, reply = Some r).
Proof.
  rewrite Exec_eq.
  destruct (Send (Transport s) (requestBytes m)) as [t1 [e|]].
  { intros H. inversion H; subst. left. eauto. }
  destruct (Receive t1) as [t2 [rawXML [e|]]].
  { intros H. inversion H; subst. left. eauto. }
  rewrite newRPCReply_eq.
  destruct (ReadFromBytes etree.NewDocument rawXML) as [data [msg|]].
  { intros H. inversion H; subst. left. eauto. }
  destruct (etree.DocFindElement data "rpc-reply") as [wrapper|]; [|discriminate].
  destruct (etree.childNodes wrapper) as [|root rest]; [discriminate|].
  destruct (classified (decodeErrors (etree.SetRoot data root)) (ErrOnWarning s)) as [e|];
    intros H; inversion H; subst; [left | right]; eauto.
Qed.

(** A reply that [Exec] returns answers this request: the request was sent
    once and one reply received, the reply carries the identifier of the
    message, none of its errors has the severity error, and under
    [ErrOnWarning] it has no errors at all. *)
Theorem Exec_returned_reply (m : RPCMessage) (s s' : Session T)
  (reply : RPCReply) (err : option error) :
  Exec ReadFromBytes m s = Return (s', (Some reply, err)) ->
  err = None
  /\ ReplyMessageID reply = MessageID m
  /\ Forall (fun e => Severity e <> "error") (Errors reply)
  /\ (ErrOnWarning s = true -> Errors reply = [])
  /\ exists t1 t2 rawXML,
       Send (Transport s) (requestBytes m) = (t1, None)
       /\ Receive t1 = (t2, (rawXML, None))
       /\ s' = withTransport s t2
       /\ newRPCReply ReadFromBytes rawXML (ErrOnWarning s) (MessageID m)
          = Return (Some reply, None).
Proof.
  rewrite Exec_eq.
  destruct (Send (Transport s) (requestBytes m)) as [t1 [e|]] eqn:Hsend; [discriminate|].
  destruct (Receive t1) as [t2 [rawXML [e|]]] eqn:Hrecv; [discriminate|].
  destruct (newRPCReply ReadFromBytes rawXML (ErrOnWarning s) (MessageID m))
    as [[r [e|]]|p] eqn:Hreply; try discriminate.
  intros H. inversion H; subst. clear H.
  pose proof (newRPCReply_returns _ _ _ _ _ _ Hreply)
    as (data & wrapper & root & rest & _ & _ & _ & Hr & Hc).
  unfold classified in Hc.
  destruct (firstFailing (Errors reply) (ErrOnWarning s)) eqn:Hf; [discriminate|].
  apply firstFailing_None in Hf.
  split; [reflexivity|]. split; [rewrite Hr; reflexivity|]. split; [|split].
  - apply Forall_impl with (2 := Hf). intros e He. exact (proj1 He).
  - intros Hstrict. destruct (Errors reply) as [|e es]; [reflexivity|].
    inversion Hf as [|? ? [_ Hx] _]. congruence.
  - exists t1, t2, rawXML. auto.
Qed.

(** A reply that reads as a well-formed document but has no element
    rpc-reply at the top makes [Exec] panic with a nil dereference, and one
    whose first such element has no child element with an index out of
    range: once the request is sent and such a reply received, no error is
    returned for it. *)
Theorem Exec_panics_on_rootless_reply (m : RPCMessage) (s : Session T)
  (t1 t2 : T) (rawXML : string) (data : etree.Document) :
  Send (Transport s) (requestBytes m) = (t1, None) ->
  Receive t1 = (t2, (rawXML, None)) ->
  ReadFromBytes etree.NewDocument rawXML = (data, None) ->
  (etree.DocFindElement data "rpc-reply" = None ->
   Exec ReadFromBytes m s = Panicked NilDereference)
  /\ (forall wrapper,
        etree.DocFindElement data "rpc-reply" = Some wrapper ->
        etree.childNodes wrapper = [] ->
        Exec ReadFromBytes m s = Panicked (IndexOutOfRange 0 0)).
Proof.
  intros Hsend Hrecv Hread.
  rewrite Exec_eq, Hsend, Hrecv, newRPCReply_eq, Hread. split.
  - intros Hfind. rewrite Hfind. reflexivity.
  - intros wrapper Hfind Hch. rewrite Hfind, Hch. reflexivity.
Qed.

End ExecFacts.

Lemma Exec_transport_failure_witness :
  Exec sampleReader getMessage closedSession
    = Return (closedSession, (None, Some (TransportError "closed")))
  /\ Exec sampleReader getMessage silentSession
     = Return ({| Transport := {| sent := [requestBytes getMessage]; incoming := [] |};
                  ErrOnWarning := false |},
               (None, Some (TransportError "EOF"))).
Proof.
  split.
  - apply (proj1 (Exec_transport_failure sampleReader getMessage closedSession)
             Closed (TransportError "closed")).
    reflexivity.
  - apply (proj2 (Exec_transport_failure sampleReader getMessage silentSession)
             {| sent := [requestBytes getMessage]; incoming := [] |}
             {| sent := [requestBytes getMessage]; incoming := [] |}
             "" (TransportError "EOF")); reflexivity.
Defined.

Lemma Exec_reply_xor_error_witness :
  Exec sampleReader getMessage (sessionWith rawData false)
    = Return ({| Transport := {| sent := [requestBytes getMessage]; incoming := [] |};
                 ErrOnWarning := false |},
              (Some dataReply, None))
  /\ ((Some dataReply = None /\ exists e, @None error = Some e)
      \/ (@None error = None /\ exists r, Some dataReply = Some r)).
Proof.
  split; [reflexivity|].
  apply (Exec_reply_xor_error sampleReader getMessage (sessionWith rawData false)
           {| Transport := {| sent := [requestBytes getMessage]; incoming := [] |};
              ErrOnWarning := false |}
           (Some dataReply) None).
  reflexivity.
Defined.

Lemma Exec_returned_reply_witness :
  Exec sampleReader getMessage (sessionWith rawData true)
    = Return ({| Transport := {| sent := [requestBytes getMessage]; incoming := [] |};
                 ErrOnWarning := true |},
              (Some dataReply, None))
  /\ ReplyMessageID dataReply = MessageID getMessage
  /\ Errors dataReply = [].
Proof.
  assert (Hexec : Exec sampleReader getMessage (sessionWith rawData true)
            = Return ({| Transport := {| sent := [requestBytes getMessage]; incoming := [] |};
                         ErrOnWarning := true |},
                      (Some dataReply, None))) by reflexivity.
  split; [exact Hexec|].
  destruct (Exec_returned_reply sampleReader getMessage (sessionWith rawData true) _
              dataReply None Hexec) as (_ & Hid & _ & Hnone & _).
  split; [exact Hid | exact (Hnone eq_refl)].
Defined.

Lemma Exec_panics_on_rootless_reply_witness :
  Exec sampleReader getMessage (sessionWith rawRootless false)
    = Panicked (IndexOutOfRange 0 0)
  /\ Exec sampleReader getMessage (sessionWith rawNoWrapper false)
     = Panicked NilDereference.
Proof.
  split.
  - destruct (Exec_panics_on_rootless_reply sampleReader getMessage
                (sessionWith rawRootless false)
                {| sent := [requestBytes getMessage]; incoming := [rawRootless] |}
                {| sent := [requestBytes getMessage]; incoming := [] |}
                rawRootless docRootless) as [_ Hchildless]; [reflexivity ..|].
    apply (Hchildless
             {| etree.pos := [0];
                etree.elt := {| etree.Space := ""; etree.Tag := "rpc-reply";
                                etree.Attrs := [ {| etree.AttrSpace := "";
                                                    etree.AttrKey := "message-id";
                                                    etree.AttrValue := "101" |} ];
                                etree.Child := [] |} |}); reflexivity.
  - destruct (Exec_panics_on_rootless_reply sampleReader getMessage
                (sessionWith rawNoWrapper false)
                {| sent := [requestBytes getMessage]; incoming := [rawNoWrapper] |}
                {| sent := [requestBytes getMessage]; incoming := [] |}
                rawNoWrapper docNoWrapper) as [Hmissing _]; [reflexivity ..|].
    apply Hmissing. reflexivity.
Defined.

(** ** The reply decoder, outcome by outcome *)

Lemma firstFailing_strict errs : firstFailing errs true = hd_error errs.
Proof. destruct errs as [|e errs]; simpl; [reflexivity|]. rewrite orb_true_r. reflexivity. Qed.

Section DecoderFacts.

Variable ReadFromBytes : etree.Document -> string -> etree.Document * option string.

(** The decoder ends in one of five ways: the reader's error without a
    reply; a reply without an error; a reply with one of its own reported
    errors as the error; a nil dereference; an index out of range.  It never
    returns neither a reply nor an error. *)
Theorem newRPCReply_outcomes rawXML strict id :
  (exists msg, snd (ReadFromBytes etree.NewDocument rawXML) = Some msg
     /\ newRPCReply ReadFromBytes rawXML strict id = Return (None, Some (ReadError msg)))
  \/ (exists reply, newRPCReply ReadFromBytes rawXML strict id = Return (Some reply, None)
        /\ firstFailing (Errors reply) strict = None)
  \/ (exists reply re,
        newRPCReply ReadFromBytes rawXML strict id = Return (Some reply, Some (RPCErr re))
        /\ In re (Errors reply))
  \/ newRPCReply ReadFromBytes rawXML strict id = Panicked NilDereference
  \/ newRPCReply ReadFromBytes rawXML strict id = Panicked (IndexOutOfRange 0 0).
Proof.
  rewrite newRPCReply_eq.
  destruct (ReadFromBytes etree.NewDocument rawXML) as [data [msg|]].
  { left. exists msg. split; reflexivity. }
  destruct (etree.DocFindElement data "rpc-reply") as [wrapper|]; [|auto].
  destruct (etree.childNodes wrapper) as [|root rest]; [auto|].
  unfold classified.
  destruct (firstFailing (decodeErrors (etree.SetRoot data root)) strict) as [re|] eqn:Hf.
  - right. right. left. exists (decodedReply data root id), re. split; [reflexivity|].
    apply firstFailing_Some in Hf. destruct Hf as (pre & post & Hf & _).
    simpl. rewrite Hf. apply in_or_app. right. left. reflexivity.
  - right. left. exists (decodedReply data root id). split; [reflexivity | exact Hf].
Qed.

(** The flag [ErrOnWarning] changes the error returned and nothing else:
    the same reply is built and the same panic raised under both settings;
    with the flag set the error is the first decoded error, if there is
    one, so a call that fails without the flag also fails with it, and a
    call that succeeds with it has no errors and succeeds without it. *)
Theorem ErrOnWarning_only_adds_failures rawXML id :
  (forall strict reply err,
     newRPCReply ReadFromBytes rawXML strict id = Return (Some reply, err) ->
     newRPCReply ReadFromBytes rawXML true id
       = Return (Some reply, option_map RPCErr (hd_error (Errors reply)))
     /\ newRPCReply ReadFromBytes rawXML false id
        = Return (Some reply, option_map RPCErr (firstFailing (Errors reply) false)))
  /\ (forall reply e,
        newRPCReply ReadFromBytes rawXML false id = Return (Some reply, Some e) ->
        exists e', newRPCReply ReadFromBytes rawXML true id = Return (Some reply, Some e'))
  /\ (forall reply,
        newRPCReply ReadFromBytes rawXML true id = Return (Some reply, None) ->
        Errors reply = []
        /\ newRPCReply ReadFromBytes rawXML false id = Return (Some reply, None))
  /\ (forall strict p,
        newRPCReply ReadFromBytes rawXML strict id = Panicked p ->
        newRPCReply ReadFromBytes rawXML (negb strict) id = Panicked p).
Proof.
  split; [|split; [|split]].
  - intros strict reply err H. rewrite !newRPCReply_eq. rewrite newRPCReply_eq in H.
    destruct (ReadFromBytes etree.NewDocument rawXML) as [data [msg|]]; [discriminate|].
    destruct (etree.DocFindElement data "rpc-reply") as [wrapper|]; [|discriminate].
    destruct (etree.childNodes wrapper) as [|root rest]; [discriminate|].
    inversion H; subst. unfold classified. rewrite firstFailing_strict.
    split; reflexivity.
  - intros reply e H. rewrite newRPCReply_eq. rewrite newRPCReply_eq in H.
    destruct (ReadFromBytes etree.NewDocument rawXML) as [data [msg|]]; [discriminate|].
    destruct (etree.DocFindElement data "rpc-reply") as [wrapper|]; [|discriminate].
    destruct (etree.childNodes wrapper) as [|root rest]; [discriminate|].
    unfold classified in *. rewrite firstFailing_strict.
    inversion H as [[Hr He]].
    destruct (decodeErrors (etree.SetRoot data root)) as [|e0 es]; [discriminate|].
    simpl. eauto.
  - intros reply H. rewrite newRPCReply_eq. rewrite newRPCReply_eq in H.
    destruct (ReadFromBytes etree.NewDocument rawXML) as [data [msg|]]; [discriminate|].
    destruct (etree.DocFindElement data "rpc-reply") as [wrapper|]; [|discriminate].
    destruct (etree.childNodes wrapper) as [|root rest]; [discriminate|].
    unfold classified in *. rewrite firstFailing_strict in H.
    inversion H as [[Hr He]]. cbn [decodedReply Errors].
    destruct (decodeErrors (etree.SetRoot data root)) as [|e0 es]; [|discriminate].
    split; reflexivity.
  - intros strict p H. rewrite newRPCReply_eq. rewrite newRPCReply_eq in H.
    destruct (ReadFromBytes etree.NewDocument rawXML) as [data [msg|]]; [discriminate|].
    destruct (etree.DocFindElement data "rpc-reply") as [wrapper|]; [|exact H].
    destruct (etree.childNodes wrapper) as [|root rest]; [exact H | discriminate].
Qed.

End DecoderFacts.

Lemma ErrOnWarning_only_adds_failures_witness :
  newRPCReply sampleReader rawTwoErrors false "101" = Return (Some twoErrorsReply, None)
  /\ newRPCReply sampleReader rawTwoErrors true "101"
     = Return (Some twoErrorsReply, Some (RPCErr (mkError "warning" ""))).
Proof.
  assert (H : newRPCReply sampleReader rawTwoErrors false "101"
              = Return (Some twoErrorsReply, None)) by reflexivity.
  split; [exact H|].
  exact (proj1 (proj1 (ErrOnWarning_only_adds_failures sampleReader rawTwoErrors "101")
                  false twoErrorsReply None H)).
Defined.

(** ** The document of a reply *)

(** [Document.Root] of etree: the first element among the children of the
    document, nil when there is none. *)
Definition DocRoot (d : etree.Document) : option etree.node :=
  hd_error (etree.childNodes (etree.docNode d)).

Definition isElementToken (t : etree.Token) : bool :=
  match etree.asElement t with
  | Some _ => true
  | None => false
  end.

Lemma childNodesFrom_length p i ch :
  List.length (etree.childNodesFrom p i ch) = List.length (filter isElementToken ch).
Proof.
  revert i; induction ch as [|t r IH]; intros i; simpl; [reflexivity|].
  unfold isElementToken. destruct (etree.asElement t); simpl; rewrite IH; reflexivity.
Qed.

Lemma replaceRoot_head p i ch e :
  option_map etree.elt (hd_error (etree.childNodesFrom p i (etree.replaceRoot ch (etree.toToken e))))
  = Some e.
Proof.
  assert (He : etree.asElement (etree.toToken e) = Some e) by (destruct e; reflexivity).
  revert i; induction ch as [|t r IH]; intros i.
  - simpl etree.replaceRoot. cbn [etree.childNodesFrom]. rewrite He. reflexivity.
  - destruct t; simpl etree.replaceRoot; cbn [etree.childNodesFrom];
      try (cbn [etree.asElement]; apply IH).
    rewrite He. reflexivity.
Qed.

Lemma replaceRoot_count ch e :
  1 <= List.length (filter isElementToken ch) ->
  List.length (filter isElementToken (etree.replaceRoot ch (etree.toToken e)))
  = List.length (filter isElementToken ch).
Proof.
  induction ch as [|t r IH]; simpl; [lia|].
  destruct t; simpl; auto.
Qed.

Lemma removeAt_count ch j k t :
  nth_error ch j = Some t -> isElementToken t = true ->
  List.length (filter isElementToken (etree.removeAt ch [j; k]))
  = List.length (filter isElementToken ch).
Proof.
  intros Hj Ht. cbn [etree.removeAt]. rewrite Hj.
  destruct t; try discriminate Ht.
  rewrite <- (firstn_skipn_middle _ _ Hj) at 3.
  rewrite !filter_app, !length_app. simpl. reflexivity.
Qed.

Section DocumentFacts.

Variable ReadFromBytes : etree.Document -> string -> etree.Document * option string.

(** The document of a returned reply is rooted at the first child element
    of the first element rpc-reply at the top of the document read, and it
    has as many elements at the top as the document read: a document whose
    only top-level element is the wrapper becomes one whose only top-level
    element is that child. *)
Theorem reply_document_root rawXML strict id reply err :
  newRPCReply ReadFromBytes rawXML strict id = Return (Some reply, err) ->
  exists data wrapper root rest,
    ReadFromBytes etree.NewDocument rawXML = (data, None)
    /\ etree.DocFindElement data "rpc-reply" = Some wrapper
    /\ etree.Tag (etree.elt wrapper) = "rpc-reply"
    /\ In wrapper (etree.childNodes (etree.docNode data))
    /\ etree.childNodes wrapper = root :: rest
    /\ option_map etree.elt (DocRoot (Data reply)) = Some (etree.elt root)
    /\ List.length (etree.childNodes (etree.docNode (Data reply)))
       = List.length (etree.childNodes (etree.docNode data)).
Proof.
  intros H. apply newRPCReply_returns in H.
  destruct H as (data & wrapper & root & rest & Hread & Hfind & Hch & -> & _).
  exists data, wrapper, root, rest.
  destruct (proj1 (etree_facts.FindElement_child (etree.docElement data) (etree.docNode data)
                     "rpc-reply" "rpc-reply" eq_refl) wrapper Hfind) as (Hin & Htag).
  repeat (split; [assumption|]).
  cbn [decodedReply Data]. unfold DocRoot, etree.SetRoot, etree.childNodes.
  cbn [etree.docNode etree.docElement etree.elt etree.pos etree.Child etree.docChild].
  split; [apply replaceRoot_head|].
  rewrite !childNodesFrom_length.
  apply etree_facts.childNodes_In in Hin. destruct Hin as (j & Hj & Hl).
  cbn [etree.docNode etree.pos etree.elt app] in Hj, Hl.
  apply etree_facts.lookup_single in Hl. destruct Hl as (t & Ht & Hte).
  cbn [etree.docElement etree.Child] in Ht.
  assert (Hroot : In root (etree.childNodes wrapper)) by (rewrite Hch; left; reflexivity).
  apply etree_facts.childNodes_In in Hroot. destruct Hroot as (k & Hk & _).
  rewrite Hj in Hk. cbn [app] in Hk. rewrite Hk.
  assert (Hel : isElementToken t = true) by (unfold isElementToken; rewrite Hte; reflexivity).
  rewrite replaceRoot_count; rewrite (removeAt_count _ j k t Ht Hel); [reflexivity|].
  rewrite <- (firstn_skipn_middle _ _ Ht). rewrite filter_app, length_app. simpl.
  rewrite Hel. simpl. lia.
Qed.

End DocumentFacts.

Lemma reply_document_root_witness :
  newRPCReply sampleReader rawData false "ID" = Return (Some dataReply, None)
  /\ option_map etree.elt (DocRoot (Data dataReply))
     = Some {| etree.Space := ""; etree.Tag := "data"; etree.Attrs := [];
               etree.Child := [elem "x" [text "1"]] |}
  /\ List.length (etree.childNodes (etree.docNode (Data dataReply))) = 1.
Proof.
  assert (H : newRPCReply sampleReader rawData false "ID" = Return (Some dataReply, None))
    by reflexivity.
  split; [exact H|].
  destruct (reply_document_root sampleReader rawData false "ID" dataReply None H)
    as (data & wrapper & root & rest & Hread & Hfind & _ & _ & Hch & Hroot & Hlen).
  inversion Hread; subst data.
  inversion Hfind; subst wrapper.
  inversion Hch; subst root rest.
  split; [exact Hroot | exact Hlen].
Defined.

(** ** Identifiers collide only when the random bytes do *)

(** The value of a hexadecimal digit and the byte two digits stand for. *)
Definition hexVal (c : ascii) : N :=
  match IndexByte ldigits c with
  | Some i => N.of_nat i
  | None => 0%N
  end.

Definition unhexByte (s : string) : ascii :=
  match s with
  | String h (String l _) => ascii_of_N (16 * hexVal h + hexVal l)
  | _ => zeroByte
  end.

Lemma unhex_hexByte c : unhexByte (hexByte c) = c.
Proof. destruct c as [[] [] [] [] [] [] [] []]; reflexivity. Qed.

Lemma hexByte_inj a b : hexByte a = hexByte b -> a = b.
Proof.
  intros H. rewrite <- (unhex_hexByte a), <- (unhex_hexByte b), H. reflexivity.
Qed.

Lemma sixteen_bytes (b : list ascii) :
  List.length b = 16 ->
  exists b0 b1 b2 b3 b4 b5 b6 b7 b8 b9 b10 b11 b12 b13 b14 b15,
    b = [b0; b1; b2; b3; b4; b5; b6; b7; b8; b9; b10; b11; b12; b13; b14; b15].
Proof.
  intros H.
  do 16 (destruct b as [|? b]; [discriminate H|]).
  destruct b; [|discriminate H]. repeat eexists.
Qed.

Ltac byte_at H k x y name :=
  assert (name : x = y)
    by (apply hexByte_inj;
        exact (f_equal (String.substring k 2) H)).

Lemma uuid_equal_iff (r1 r2 : Reader) :
  16 <= List.length r1 -> 16 <= List.length r2 ->
  (fst (uuid r1) = fst (uuid r2) <->
   (forall i, i < 16 -> i <> 6 -> i <> 8 -> nth i r1 zeroByte = nth i r2 zeroByte)
   /\ N.land (N_of_ascii (nth 6 r1 zeroByte)) 15 = N.land (N_of_ascii (nth 6 r2 zeroByte)) 15
   /\ N.land (N_of_ascii (nth 8 r1 zeroByte)) 63 = N.land (N_of_ascii (nth 8 r2 zeroByte)) 63).
Proof.
  intros H1 H2. rewrite !uuid_eq. cbv zeta. cbn [fst].
  assert (Hn1 : forall i, i < 16 ->
            nth i (fst (ReadFull r1 (repeat zeroByte 16))) zeroByte = nth i r1 zeroByte).
  { intros i Hi. apply ReadFull_nth; [rewrite repeat_length; exact Hi | lia]. }
  assert (Hn2 : forall i, i < 16 ->
            nth i (fst (ReadFull r2 (repeat zeroByte 16))) zeroByte = nth i r2 zeroByte).
  { intros i Hi. apply ReadFull_nth; [rewrite repeat_length; exact Hi | lia]. }
  pose proof (ReadFull_length r1 (repeat zeroByte 16)) as L1.
  pose proof (ReadFull_length r2 (repeat zeroByte 16)) as L2.
  rewrite repeat_length in L1, L2.
  destruct (sixteen_bytes _ L1)
    as (a0 & a1 & a2 & a3 & a4 & a5 & a6 & a7 & a8 & a9 & a10 & a11 & a12 & a13 & a14 & a15
        & E1).
  destruct (sixteen_bytes _ L2)
    as (c0 & c1 & c2 & c3 & c4 & c5 & c6 & c7 & c8 & c9 & c10 & c11 & c12 & c13 & c14 & c15
        & E2).
  rewrite E1 in *. rewrite E2 in *. clear E1 E2 L1 L2.
  cbn [setByte getByte nth slice skipn firstn Nat.sub hexBytes].
  split.
  - intros H.
    byte_at H 0 a0 c0 B0. byte_at H 2 a1 c1 B1. byte_at H 4 a2 c2 B2.
    byte_at H 6 a3 c3 B3. byte_at H 9 a4 c4 B4. byte_at H 11 a5 c5 B5.
    byte_at H 14 (bor (band a6 15) 64) (bor (band c6 15) 64) B6.
    byte_at H 16 a7 c7 B7.
    byte_at H 19 (bor (band a8 63) 128) (bor (band c8 63) 128) B8.
    byte_at H 21 a9 c9 B9. byte_at H 24 a10 c10 B10. byte_at H 26 a11 c11 B11.
    byte_at H 28 a12 c12 B12. byte_at H 30 a13 c13 B13. byte_at H 32 a14 c14 B14.
    byte_at H 34 a15 c15 B15.
    split; [|split].
    + intros i Hi H6 H8. rewrite <- (Hn1 i Hi), <- (Hn2 i Hi).
      do 16 (destruct i as [|i]; [first [assumption | contradiction]|]). lia.
    + rewrite <- (Hn1 6), <- (Hn2 6) by lia. cbn [nth].
      rewrite <- (version_low_bits a6), <- (version_low_bits c6), B6. reflexivity.
    + rewrite <- (Hn1 8), <- (Hn2 8) by lia. cbn [nth].
      rewrite <- (variant_low_bits a8), <- (variant_low_bits c8), B8. reflexivity.
  - intros (Hi & H6 & H8).
    rewrite <- (Hn1 6), <- (Hn2 6) in H6 by lia.
    rewrite <- (Hn1 8), <- (Hn2 8) in H8 by lia. cbn [nth] in H6, H8.
    assert (B : forall i, i < 16 -> i <> 6 -> i <> 8 ->
              nth i [a0; a1; a2; a3; a4; a5; a6; a7; a8; a9; a10; a11; a12; a13; a14; a15]
                  zeroByte
              = nth i [c0; c1; c2; c3; c4; c5; c6; c7; c8; c9; c10; c11; c12; c13; c14; c15]
                  zeroByte).
    { intros i Hlt Hn6 Hn8. rewrite (Hn1 i Hlt), (Hn2 i Hlt). apply Hi; assumption. }
    pose proof (B 0) as B0. pose proof (B 1) as B1. pose proof (B 2) as B2.
    pose proof (B 3) as B3. pose proof (B 4) as B4. pose proof (B 5) as B5.
    pose proof (B 7) as B7. pose proof (B 9) as B9. pose proof (B 10) as B10.
    pose proof (B 11) as B11. pose proof (B 12) as B12. pose proof (B 13) as B13.
    pose proof (B 14) as B14. pose proof (B 15) as B15.
    cbn [nth] in *.
    rewrite B0, B1, B2, B3, B4, B5, B7, B9, B10, B11, B12, B13, B14, B15 by lia.
    unfold band. rewrite H6, H8. reflexivity.
Qed.

(** Two sources that differ in the overwritten bits only. *)
Definition sourceA : Reader :=
  map ascii_of_nat [0; 1; 2; 3; 4; 5; 15; 7; 63; 9; 10; 11; 12; 13; 14; 15; 201; 202].

Definition sourceB : Reader :=
  map ascii_of_nat [0; 1; 2; 3; 4; 5; 255; 7; 255; 9; 10; 11; 12; 13; 14; 15].

(** A new message keeps its methods and takes sixteen bytes from the random
    source for its identifier; the identifiers of two messages, drawn from
    sources that deliver sixteen bytes, are the same exactly when the
    sources agree on those bytes outside the six bits that [uuid]
    overwrites: the high nibble of byte 6 and the two high bits of
    byte 8. *)
Theorem NewRPCMessage_identifier (r1 r2 : Reader) (ms1 ms2 : list RPCMethod) :
  16 <= List.length r1 -> 16 <= List.length r2 ->
  Methods (fst (NewRPCMessage r1 ms1)) = ms1
  /\ snd (NewRPCMessage r1 ms1) = skipn 16 r1
  /\ (MessageID (fst (NewRPCMessage r1 ms1)) = MessageID (fst (NewRPCMessage r2 ms2)) <->
      (forall i, i < 16 -> i <> 6 -> i <> 8 -> nth i r1 zeroByte = nth i r2 zeroByte)
      /\ N.land (N_of_ascii (nth 6 r1 zeroByte)) 15
         = N.land (N_of_ascii (nth 6 r2 zeroByte)) 15
      /\ N.land (N_of_ascii (nth 8 r1 zeroByte)) 63
         = N.land (N_of_ascii (nth 8 r2 zeroByte)) 63).
Proof.
  intros H1 H2.
  assert (Hid : forall r ms, MessageID (fst (NewRPCMessage r ms)) = fst (uuid r)).
  { intros r ms. unfold NewRPCMessage, msgID. destruct (uuid r); reflexivity. }
  split; [|split].
  - unfold NewRPCMessage, msgID. destruct (uuid r1); reflexivity.
  - unfold NewRPCMessage, msgID. rewrite uuid_eq. reflexivity.
  - rewrite !Hid. apply uuid_equal_iff; assumption.
Qed.

Lemma NewRPCMessage_identifier_witness :
  16 <= List.length sourceA /\ 16 <= List.length sourceB
  /\ MessageID (fst (NewRPCMessage sourceA [])) = MessageID (fst (NewRPCMessage sourceB []))
  /\ snd (NewRPCMessage sourceA []) = map ascii_of_nat [201; 202].
Proof.
  assert (HA : 16 <= List.length sourceA) by (simpl; lia).
  assert (HB : 16 <= List.length sourceB) by (simpl; lia).
  split; [exact HA|]. split; [exact HB|].
  destruct (NewRPCMessage_identifier sourceA sourceB [] [] HA HB) as (_ & Hrest & Hiff).
  split; [|exact Hrest].
  apply Hiff. split; [|split; reflexivity].
  intros i Hi H6 H8.
  do 16 (destruct i as [|i]; [first [reflexivity | contradiction]|]). lia.
Defined.

(** ** The identifier inside the start tag *)

Lemma outside_false b lo hi : utf8.outside b lo hi = false -> (lo <= b)%N.
Proof.
  unfold utf8.outside. intros H. apply orb_false_iff in H. destruct H as (H & _).
  apply N.ltb_ge in H. exact H.
Qed.

(** The bytes after the first of a decoded rune are continuation bytes. *)
Lemma decode_continuation s r w :
  utf8.DecodeRuneInString s = (r, w) ->
  forall i, 1 <= i -> i < w -> i < String.length s /\ (128 <= utf8.byteAt s i)%N.
Proof.
  unfold utf8.DecodeRuneInString.
  destruct (Nat.ltb (String.length s) 1) eqn:Hn.
  { intros H; inversion H; subst. intros; lia. }
  unfold utf8.first.
  repeat match goal with
         | |- context [if (?a <? ?b)%N then _ else _] =>
             destruct (a <? b)%N eqn:?
         | |- context [if (?a =? ?b)%N then _ else _] =>
             destruct (a =? b)%N eqn:?
         end.
  all: simpl.
  all: repeat match goal with
         | |- context [if ?c then _ else _] => destruct c eqn:?
         end.
  all: intros H; inversion H; subst; intros i Hi1 Hi2; try lia.
  all: try match goal with
         | H : N.eqb ?a ?b = true |- _ => vm_compute in H; discriminate H
         end.
  all: repeat match goal with
         | H : context [Pos.to_nat ?p] |- _ =>
             let v := eval vm_compute in (Pos.to_nat p) in
             change (Pos.to_nat p) with v in H
         end.
  all: repeat match goal with
         | H : utf8.outside _ _ _ = false |- _ => apply outside_false in H
         | H : Nat.ltb _ _ = false |- _ => apply Nat.ltb_ge in H
         end.
  all: unfold utf8.locb in *.
  all: try (assert (i = 1) by lia; subst i; split; [lia | lia]).
  all: try (assert (Hi : i = 1 \/ i = 2) by lia; destruct Hi; subst i; split; lia).
  all: try (assert (Hi : i = 1 \/ i = 2 \/ i = 3) by lia;
            destruct Hi as [|[|]]; subst i; split; lia).
Qed.

(** A byte that delimits markup or an attribute value: the double and the
    single quote and the two angle brackets. *)
Definition delimiterByte (c : ascii) : bool :=
  let n := N_of_ascii c in
  (N.eqb n 34 || N.eqb n 39 || N.eqb n 60 || N.eqb n 62)%bool.

Definition noDelimiter (s : string) : Prop :=
  Forall (fun c => delimiterByte c = false) (list_ascii_of_string s).

Lemma high_byte_no_delimiter c : (128 <= N_of_ascii c)%N -> delimiterByte c = false.
Proof.
  intros H. unfold delimiterByte. cbv zeta.
  repeat match goal with
         | |- context [N.eqb ?a ?b] => destruct (N.eqb_spec a b); [lia|]
         end.
  reflexivity.
Qed.

Lemma escapeOf_no_delimiter r w esc : xml.escapeOf r w = Some esc -> noDelimiter esc.
Proof.
  unfold xml.escapeOf.
  repeat match goal with
         | |- context [if ?c then _ else _] => destruct c
         end;
    intros H; inversion H; subst; unfold noDelimiter; simpl; repeat constructor.
Qed.

Lemma kept_first_byte c rest r w :
  utf8.DecodeRuneInString (String c rest) = (r, w) ->
  xml.escapeOf r w = None ->
  delimiterByte c = false.
Proof.
  intros Hd He.
  destruct c as [[] [] [] [] [] [] [] []]; try reflexivity;
    match type of Hd with
    | utf8.DecodeRuneInString (String ?c _) = _ =>
        assert (E : utf8.DecodeRuneInString (String c rest) = (N_of_ascii c, 1))
          by reflexivity
    end;
    rewrite E in Hd; inversion Hd; subst; vm_compute in He; discriminate He.
Qed.

Lemma noDelimiter_app s t : noDelimiter s -> noDelimiter t -> noDelimiter (s +++ t).
Proof.
  unfold noDelimiter. rewrite list_ascii_of_append. intros Hs Ht.
  apply Forall_app. split; assumption.
Qed.

Lemma escapeFrom_no_delimiter s : forall pending keep,
  (keep = true ->
   forall i, i < pending -> i < String.length s -> (128 <= utf8.byteAt s i)%N) ->
  noDelimiter (xml.escapeFrom s pending keep).
Proof.
  induction s as [|c rest IH]; intros pending keep Hcont; [constructor|].
  cbn [xml.escapeFrom]. destruct pending as [|k].
  - destruct (utf8.DecodeRuneInString (String c rest)) as [r w] eqn:Hd.
    destruct (xml.escapeOf r w) as [esc|] eqn:He.
    + apply noDelimiter_app; [exact (escapeOf_no_delimiter _ _ _ He)|].
      apply IH. intros Hk. discriminate Hk.
    + unfold noDelimiter. simpl. constructor; [exact (kept_first_byte _ _ _ _ Hd He)|].
      apply IH. intros _ i Hi Hlen.
      destruct (decode_continuation _ _ _ Hd (S i)) as (_ & Hb); [lia | lia |].
      exact Hb.
  - destruct keep.
    + unfold noDelimiter. simpl. constructor.
      * apply high_byte_no_delimiter.
        apply (Hcont eq_refl 0); simpl; lia.
      * apply IH. intros _ i Hi Hlen. apply (Hcont eq_refl (S i)); simpl; lia.
    + apply IH. intros Hk. discriminate Hk.
Qed.

Lemma EscapeString_no_delimiter s : noDelimiter (xml.EscapeString s).
Proof.
  apply escapeFrom_no_delimiter. intros _ i Hi. lia.
Qed.

(** In the bytes of a request the value of message-id ends at the first
    double quote after its opening one: whatever the identifier, its
    escaped text holds no double or single quote and no angle bracket, so
    an identifier cannot close the attribute or the start tag. *)
Theorem message_id_stays_in_its_attribute (m : RPCMessage) :
  exists value tail,
    Marshal m = ("<rpc message-id=" +++ Q +++ value +++ Q +++ tail, None)
    /\ value = xml.EscapeString (MessageID m)
    /\ noDelimiter value
    /\ tail = " xmlns=" +++ Q +++ "urn:ietf:params:xml:ns:netconf:base:1.0" +++ Q +++ ">"
              +++ concatStrings (map marshalMethod (Methods m)) +++ "</rpc>".
Proof.
  exists (xml.EscapeString (MessageID m)).
  eexists. split; [|split; [reflexivity|split; [apply EscapeString_no_delimiter|reflexivity]]].
  rewrite Marshal_eq. unfold rpcElement. reflexivity.
Qed.

(** ** The text of a reported error *)

(** [asciiSpace] of package strings: tab, line feed, vertical tab, form
    feed, carriage return and space. *)
Definition asciiSpace (c : ascii) : bool :=
  let n := N_of_ascii c in
  (N.eqb n 9 || N.eqb n 10 || N.eqb n 11 || N.eqb n 12 || N.eqb n 13 || N.eqb n 32)%bool.

(** [c >= utf8.RuneSelf]. *)
Definition nonASCII (c : ascii) : bool := N.leb 128 (N_of_ascii c).

(** The first loop of [strings.TrimSpace]: the text from the first byte
    that is not an ASCII space, and whether that byte is outside ASCII. *)
Fixpoint trimStart (s : string) : string * bool :=
  match s with
  | EmptyString => ("", false)
  | String c r =>
      if nonASCII c then (s, true)
      else if asciiSpace c then trimStart r
      else (s, false)
  end.

(** The second loop, over the bytes from the last one backwards: the bytes
    up to the last one that is not an ASCII space, last byte first, and
    whether that byte is outside ASCII. *)
Fixpoint trimStop (backwards : list ascii) : list ascii * bool :=
  match backwards with
  | [] => ([], false)
  | c :: r =>
      if nonASCII c then (backwards, true)
      else if asciiSpace c then trimStop r
      else (backwards, false)
  end.

Section ErrorText.

(** [strings.TrimFunc(s, unicode.IsSpace)] and [strings.TrimRightFunc(s,
    unicode.IsSpace)], which [TrimSpace] falls back to when it meets a byte
    outside ASCII. *)
Variable TrimFuncIsSpace : string -> string.
Variable TrimRightFuncIsSpace : string -> string.

Definition TrimSpace (s : string) : string :=
  let '(fromStart, unicode) := trimStart s in
  if unicode then TrimFuncIsSpace fromStart
  else
    let '(kept, unicode) := trimStop (rev (list_ascii_of_string fromStart)) in
    if unicode then TrimRightFuncIsSpace (string_of_list_ascii (rev kept))
    else string_of_list_ascii (rev kept).

(** [RPCError.Error]. *)
Definition Error (re : RPCError) : string :=
  "netconf rpc [" +++ Severity re +++ "] '" +++ TrimSpace (Message re) +++ "'".

End ErrorText.

Definition allASCII (s : string) : Prop :=
  Forall (fun c => nonASCII c = false) (list_ascii_of_string s).

Definition allSpace (s : string) : Prop :=
  Forall (fun c => asciiSpace c = true) (list_ascii_of_string s).

Definition firstByte (s : string) : option ascii := String.get 0 s.

Definition lastByte (s : string) : option ascii := hd_error (rev (list_ascii_of_string s)).

Lemma trimStart_ascii s :
  allASCII s ->
  exists lead, s = lead +++ fst (trimStart s)
    /\ allSpace lead
    /\ snd (trimStart s) = false
    /\ allASCII (fst (trimStart s))
    /\ (forall c, firstByte (fst (trimStart s)) = Some c -> asciiSpace c = false).
Proof.
  unfold allASCII, allSpace. induction s as [|c r IH]; intros H.
  - exists "". simpl. repeat split; auto. intros c Hc. discriminate.
  - simpl in H. inversion H as [|? ? Hc Hr]; subst. cbn [trimStart]. rewrite Hc.
    destruct (asciiSpace c) eqn:Hs.
    + destruct (IH Hr) as (lead & E & Hl & Hu & Ha & Hf).
      exists (String c lead). simpl. rewrite <- E. repeat split; auto.
    + exists "". simpl. repeat split; auto.
      intros c' Hc'. inversion Hc'; subst. exact Hs.
Qed.

Lemma trimStop_ascii l :
  Forall (fun c => nonASCII c = false) l ->
  exists trail, l = trail ++ fst (trimStop l)
    /\ Forall (fun c => asciiSpace c = true) trail
    /\ snd (trimStop l) = false
    /\ (forall c, hd_error (fst (trimStop l)) = Some c -> asciiSpace c = false)
    /\ (fst (trimStop l) = [] \/ exists x, In x l /\ asciiSpace x = false).
Proof.
  induction l as [|c r IH]; intros H.
  - exists []. simpl. repeat split; auto. intros c Hc. discriminate.
  - inversion H as [|? ? Hc Hr]; subst. cbn [trimStop]. rewrite Hc.
    destruct (asciiSpace c) eqn:Hs.
    + destruct (IH Hr) as (trail & E & Hl & Hu & Hf & Hx).
      exists (c :: trail). simpl. rewrite <- E. repeat split; auto.
      destruct Hx as [Hx|(x & Hin & Hx)]; [left; exact Hx | right; exists x; auto].
    + exists []. simpl. repeat split; auto.
      * intros c' Hc'. inversion Hc'; subst. exact Hs.
      * right. exists c. auto.
Qed.

Lemma string_of_list_ascii_app a b :
  string_of_list_ascii (a ++ b) = string_of_list_ascii a +++ string_of_list_ascii b.
Proof. induction a as [|x a IH]; simpl; [reflexivity | rewrite IH; reflexivity]. Qed.

Lemma firstByte_app a b c : firstByte a = Some c -> firstByte (a +++ b) = Some c.
Proof. destruct a; simpl; [discriminate | auto]. Qed.

(** For a message of ASCII bytes, [Error] gives the severity in brackets
    and, between single quotes, the message without the ASCII spaces at its
    two ends: what is cut off are spaces only, and what is left neither
    starts nor ends with one. *)
Theorem Error_text_of_ASCII_message
  (TrimFuncIsSpace TrimRightFuncIsSpace : string -> string) (re : RPCError) :
  allASCII (Message re) ->
  exists lead core trail,
    Message re = lead +++ core +++ trail
    /\ allSpace lead /\ allSpace trail
    /\ (forall c, firstByte core = Some c -> asciiSpace c = false)
    /\ (forall c, lastByte core = Some c -> asciiSpace c = false)
    /\ Error TrimFuncIsSpace TrimRightFuncIsSpace re
       = "netconf rpc [" +++ Severity re +++ "] '" +++ core +++ "'".
Proof.
  intros Hascii. unfold Error, TrimSpace.
  destruct (trimStart_ascii _ Hascii) as (lead & Emsg & Hlead & Hu & Ha & Hfirst).
  destruct (trimStart (Message re)) as [t u]. cbn [fst snd] in *. subst u.
  assert (Hrev : Forall (fun c => nonASCII c = false) (rev (list_ascii_of_string t))).
  { apply Forall_rev. exact Ha. }
  destruct (trimStop_ascii _ Hrev) as (trailRev & Et & Htrail & Hu & Hlast & _).
  destruct (trimStop (rev (list_ascii_of_string t))) as [kept u]. cbn [fst snd] in *.
  subst u.
  assert (Et' : t = string_of_list_ascii (rev kept) +++ string_of_list_ascii (rev trailRev)).
  { rewrite <- string_of_list_ascii_app, <- rev_app_distr, <- Et, rev_involutive.
    symmetry. apply string_of_list_ascii_of_string. }
  exists lead, (string_of_list_ascii (rev kept)), (string_of_list_ascii (rev trailRev)).
  split; [rewrite <- Et'; exact Emsg|]. split; [exact Hlead|]. split.
  { unfold allSpace. rewrite list_ascii_of_string_of_list_ascii. apply Forall_rev.
    exact Htrail. }
  split.
  { intros c Hc. apply Hfirst. rewrite Et'. apply firstByte_app. exact Hc. }
  split.
  { intros c Hc. apply Hlast. unfold lastByte in Hc.
    rewrite list_ascii_of_string_of_list_ascii, rev_involutive in Hc. exact Hc. }
  reflexivity.
Qed.

Definition lockedText : RPCError :=
  {| Type_ := "protocol"; Tag := "lock-denied"; Severity := "error"; Path := "";
     Message := LF +++ "  locked " +++ LF |}.

Lemma Error_text_of_ASCII_message_witness :
  allASCII (Message lockedText)
  /\ Error (fun s => s) (fun s => s) lockedText = "netconf rpc [error] 'locked'"
  /\ exists lead core trail,
       Message lockedText = lead +++ core +++ trail
       /\ allSpace lead /\ allSpace trail
       /\ (forall c, firstByte core = Some c -> asciiSpace c = false)
       /\ (forall c, lastByte core = Some c -> asciiSpace c = false)
       /\ Error (fun s => s) (fun s => s) lockedText
          = "netconf rpc [" +++ Severity lockedText +++ "] '" +++ core +++ "'".
Proof.
  assert (H : allASCII (Message lockedText)) by (repeat constructor).
  split; [exact H|]. split; [reflexivity|].
  exact (Error_text_of_ASCII_message (fun s => s) (fun s => s) lockedText H).
Defined.

(** ** The attributes of the wrapper *)

Definition noElements (ch : list etree.Token) : Prop :=
  Forall (fun t => isElementToken t = false) ch.

Lemma childNodesFrom_skip p i pre ch :
  noElements pre ->
  etree.childNodesFrom p i (pre ++ ch) = etree.childNodesFrom p (i + List.length pre) ch.
Proof.
  intros H. revert i. induction H as [|t pre Ht Hpre IH]; intros i; simpl.
  - rewrite Nat.add_0_r. reflexivity.
  - unfold isElementToken in Ht. destruct (etree.asElement t); [discriminate|].
    rewrite IH. f_equal. lia.
Qed.

Lemma replaceRoot_skip pre t r e :
  noElements pre -> isElementToken t = true ->
  etree.replaceRoot (pre ++ t :: r) e = pre ++ e :: r.
Proof.
  intros H Ht. induction H as [|x pre Hx Hpre IH]; simpl.
  - destruct t; try discriminate Ht. reflexivity.
  - destruct x; try discriminate Hx; rewrite IH; reflexivity.
Qed.

Lemma nth_error_middle {A} (pre : list A) x post :
  nth_error (pre ++ x :: post) (List.length pre) = Some x.
Proof. induction pre; simpl; auto. Qed.

Lemma nth_error_other {A} (pre : list A) x y post i :
  i <> List.length pre ->
  nth_error (pre ++ x :: post) i = nth_error (pre ++ y :: post) i.
Proof.
  revert i; induction pre as [|a pre IH]; intros i Hi; simpl in *.
  - destruct i; [contradiction | reflexivity].
  - destruct i; [reflexivity|]. simpl. apply IH. lia.
Qed.

Lemma firstn_middle {A} (pre : list A) x post :
  firstn (List.length pre) (pre ++ x :: post) = pre.
Proof. induction pre; simpl; [reflexivity | f_equal; assumption]. Qed.

Lemma skipn_middle {A} (pre : list A) x post :
  skipn (S (List.length pre)) (pre ++ x :: post) = post.
Proof. induction pre; simpl; [reflexivity | assumption]. Qed.

(** Below the top, a position is looked up in the children alone. *)
Lemma lookup_children e1 e2 p :
  etree.Child e1 = etree.Child e2 -> p <> [] -> etree.lookup e1 p = etree.lookup e2 p.
Proof.
  intros Hc Hp. destruct p as [|i r]; [contradiction|]. simpl. rewrite Hc. reflexivity.
Qed.

Section Wrapper.

Variables (pre post ch : list etree.Token) (space : string).

Definition wrapperDoc (attrs : list etree.Attr) : etree.Document :=
  {| etree.docChild := pre ++ etree.ElementToken space "rpc-reply" attrs ch :: post |}.

Definition wrapperNode (attrs : list etree.Attr) : etree.node :=
  {| etree.pos := [List.length pre];
     etree.elt := {| etree.Space := space; etree.Tag := "rpc-reply";
                     etree.Attrs := attrs; etree.Child := ch |} |}.

Hypothesis Hpre : noElements pre.

Lemma wrapper_found attrs :
  etree.DocFindElement (wrapperDoc attrs) "rpc-reply" = Some (wrapperNode attrs).
Proof.
  unfold etree.DocFindElement, etree.FindElement, etree.FindElementPath, etree.traverse.
  change (etree.MustCompilePath "rpc-reply") with [etree.selectChildrenByTag "" "rpc-reply"].
  cbn [etree.eval flat_map etree.apply]. rewrite app_nil_r.
  unfold etree.childNodes. cbn [etree.docNode etree.pos etree.elt etree.docElement
                                etree.Child wrapperDoc etree.docChild].
  rewrite (childNodesFrom_skip _ _ _ _ Hpre). cbn [etree.childNodesFrom etree.asElement].
  cbn [filter etree.elt etree.Space etree.Tag etree.spaceMatch andb].
  rewrite String.eqb_refl.
  pose proof (etree_facts.addResults_head
                (wrapperNode attrs ::
                 filter (fun c => etree.spaceMatch "" (etree.Space (etree.elt c))
                                  && String.eqb "rpc-reply" (etree.Tag (etree.elt c)))
                        (etree.childNodesFrom [] (S (0 + List.length pre)) post))) as Hh.
  unfold wrapperNode in *. cbn [app Nat.add] in *.
  destruct (etree.addResults _ []) as [|first l]; [discriminate Hh|].
  simpl in Hh. inversion Hh. reflexivity.
Qed.

Lemma wrapper_rerooted attrs root :
  In root (etree.childNodes (wrapperNode attrs)) ->
  etree.SetRoot (wrapperDoc attrs) root
  = {| etree.docChild := pre ++ etree.toToken (etree.elt root) :: post |}.
Proof.
  intros Hin. apply etree_facts.childNodes_In in Hin. destruct Hin as (k & Hk & _).
  cbn [wrapperNode etree.pos app] in Hk.
  unfold etree.SetRoot, wrapperDoc. cbn [etree.docChild]. rewrite Hk.
  cbn [etree.removeAt]. rewrite nth_error_middle, firstn_middle, skipn_middle.
  rewrite replaceRoot_skip; [reflexivity | exact Hpre | reflexivity].
Qed.

Lemma wrapper_ok attrs1 attrs2 : hasOk (wrapperDoc attrs1) = hasOk (wrapperDoc attrs2).
Proof.
  assert (Himp : forall a b,
            (exists n, etree.DocFindElement (wrapperDoc a) "//ok" = Some n) ->
            exists n, etree.DocFindElement (wrapperDoc b) "//ok" = Some n).
  { intros a b Ha.
    apply (etree_facts.DocFindElement_any_depth _ "//ok" "ok" eq_refl) in Ha.
    apply (etree_facts.DocFindElement_any_depth _ "//ok" "ok" eq_refl).
    destruct Ha as (p & e & Hp & Hl & Ht).
    destruct p as [|i r]; [contradiction|].
    destruct (Nat.eq_dec i (List.length pre)) as [->|Hi].
    - simpl in Hl. cbn [wrapperDoc etree.docChild] in Hl.
      rewrite nth_error_middle in Hl. cbn [etree.asElement] in Hl.
      destruct r as [|j r].
      + simpl in Hl. inversion Hl; subst e. discriminate Ht.
      + exists (List.length pre :: j :: r), e. split; [discriminate|]. split; [|exact Ht].
        simpl. cbn [wrapperDoc etree.docChild]. rewrite nth_error_middle.
        cbn [etree.asElement]. exact Hl.
    - exists (i :: r), e. split; [discriminate|]. split; [|exact Ht].
      simpl in *. cbn [wrapperDoc etree.docChild] in *.
      rewrite (nth_error_other pre (etree.ElementToken space "rpc-reply" b ch)
                 (etree.ElementToken space "rpc-reply" a ch) post i Hi).
      exact Hl. }
  unfold hasOk.
  destruct (etree.DocFindElement (wrapperDoc attrs1) "//ok") as [n1|] eqn:E1;
    destruct (etree.DocFindElement (wrapperDoc attrs2) "//ok") as [n2|] eqn:E2;
    try reflexivity.
  - destruct (Himp attrs1 attrs2 (ex_intro _ n1 E1)) as (n & Hn). congruence.
  - destruct (Himp attrs2 attrs1 (ex_intro _ n2 E2)) as (n & Hn). congruence.
Qed.

(** The attributes of the wrapper, the message-id among them, have no part
    in decoding: two documents that differ in them only, the wrapper being
    the first element at the top, decode to the same result.  The reply is
    not compared with the request it is returned for. *)
Theorem wrapper_attributes_ignored
  (R1 R2 : etree.Document -> string -> etree.Document * option string)
  (raw1 raw2 : string) (attrs1 attrs2 : list etree.Attr) (strict : bool) (id : string) :
  R1 etree.NewDocument raw1 = (wrapperDoc attrs1, None) ->
  R2 etree.NewDocument raw2 = (wrapperDoc attrs2, None) ->
  newRPCReply R1 raw1 strict id = newRPCReply R2 raw2 strict id.
Proof.
  intros H1 H2. rewrite !newRPCReply_eq, H1, H2, !wrapper_found.
  change (etree.childNodes (wrapperNode attrs2)) with (etree.childNodes (wrapperNode attrs1)).
  destruct (etree.childNodes (wrapperNode attrs1)) as [|root rest] eqn:Hch; [reflexivity|].
  assert (Hin : In root (etree.childNodes (wrapperNode attrs1)))
    by (rewrite Hch; left; reflexivity).
  unfold decodedReply.
  rewrite (wrapper_rerooted attrs1 root Hin).
  rewrite (wrapper_rerooted attrs2 root Hin).
  rewrite (wrapper_ok attrs1 attrs2). reflexivity.
Qed.

End Wrapper.

(** The data reply again, under an identifier that is not the request's. *)
Definition rawDataOther : string :=
  replyOpen "another" +++ "<data><x>1</x></data></rpc-reply>".

Definition docDataOther : etree.Document :=
  {| etree.docChild := [replyElem "another" [elem "data" [elem "x" [text "1"]]]] |}.

Lemma wrapper_attributes_ignored_witness :
  noElements []
  /\ newRPCReply sampleReader rawData false "ID"
     = newRPCReply (tableReader [(rawDataOther, docDataOther)]) rawDataOther false "ID".
Proof.
  assert (H : noElements []) by constructor.
  split; [exact H|].
  apply (wrapper_attributes_ignored [] [] [elem "data" [elem "x" [text "1"]]] "" H
           sampleReader (tableReader [(rawDataOther, docDataOther)]) rawData rawDataOther
           [ {| etree.AttrSpace := ""; etree.AttrKey := "message-id"; etree.AttrValue := "ID" |} ]
           [ {| etree.AttrSpace := ""; etree.AttrKey := "message-id";
                etree.AttrValue := "another" |} ]
           false "ID"); reflexivity.
Defined.

(** ** When a call fails *)

Lemma noElements_nth ch i t :
  noElements ch -> nth_error ch i = Some t -> etree.asElement t = None.
Proof.
  intros H Hn. apply nth_error_In in Hn.
  unfold noElements in H. rewrite Forall_forall in H. specialize (H t Hn).
  unfold isElementToken in H. destruct (etree.asElement t); [discriminate | reflexivity].
Qed.

(** In a document whose only element at the top is [e], the elements are
    those of [e]. *)
Lemma lookup_single_root pre post e p x :
  noElements pre -> noElements post -> p <> [] ->
  (etree.lookup (etree.docElement {| etree.docChild := pre ++ etree.toToken e :: post |}) p
     = Some x
   <-> exists r, p = List.length pre :: r /\ etree.lookup e r = Some x).
Proof.
  intros Hpre Hpost Hp. destruct p as [|i r]; [contradiction|].
  assert (He : etree.asElement (etree.toToken e) = Some e) by (destruct e; reflexivity).
  cbn [etree.lookup etree.docElement etree.Child etree.docChild].
  destruct (Nat.eq_dec i (List.length pre)) as [->|Hi].
  - rewrite nth_error_middle, He. split.
    + intros H. exists r. auto.
    + intros (r' & Hr & H). inversion Hr; subst. exact H.
  - split.
    + intros H. exfalso.
      destruct (nth_error (pre ++ etree.toToken e :: post) i) as [t|] eqn:Hn; [|discriminate].
      assert (Ht : etree.asElement t = None).
      { destruct (Nat.lt_ge_cases i (List.length pre)) as [Hlt|Hge].
        - rewrite nth_error_app1 in Hn by exact Hlt. exact (noElements_nth _ _ _ Hpre Hn).
        - rewrite nth_error_app2 in Hn by exact Hge.
          destruct (i - List.length pre) as [|k] eqn:Hk; [lia|].
          simpl in Hn. exact (noElements_nth _ _ _ Hpost Hn). }
      rewrite Ht in H. discriminate.
    + intros (r' & Hr & _). inversion Hr. contradiction.
Qed.

Section SingleRoot.

Variables (pre post ch : list etree.Token) (space : string).
Hypothesis Hpre : noElements pre.
Hypothesis Hpost : noElements post.

(** For a document whose only element at the top is the wrapper: the reply
    has no errors exactly when the first child element of the wrapper
    neither is nor contains an element rpc-error; then the call succeeds
    under both settings of the flag, and otherwise it fails under
    [ErrOnWarning]. *)
Theorem call_fails_iff_payload_reports
  (ReadFromBytes : etree.Document -> string -> etree.Document * option string)
  (rawXML : string) (attrs : list etree.Attr) (id : string)
  (root : etree.node) (rest : list etree.node) :
  ReadFromBytes etree.NewDocument rawXML = (wrapperDoc pre post ch space attrs, None) ->
  etree.childNodes (wrapperNode pre ch space attrs) = root :: rest ->
  exists reply,
    (forall strict, exists err,
       newRPCReply ReadFromBytes rawXML strict id = Return (Some reply, err))
    /\ (Errors reply = [] <->
        forall p e, etree.lookup (etree.elt root) p = Some e -> etree.Tag e <> "rpc-error")
    /\ (Errors reply = [] ->
        forall strict, newRPCReply ReadFromBytes rawXML strict id = Return (Some reply, None))
    /\ (Errors reply <> [] ->
        exists re, newRPCReply ReadFromBytes rawXML true id
                   = Return (Some reply, Some (RPCErr re))).
Proof.
  intros Hread Hch.
  assert (Hin : In root (etree.childNodes (wrapperNode pre ch space attrs)))
    by (rewrite Hch; left; reflexivity).
  assert (Heq : forall strict,
            newRPCReply ReadFromBytes rawXML strict id
            = Return (Some (decodedReply (wrapperDoc pre post ch space attrs) root id),
                      classified (decodeErrors
                                    (etree.SetRoot (wrapperDoc pre post ch space attrs) root))
                                 strict)).
  { intros strict. rewrite newRPCReply_eq, Hread, (wrapper_found pre post ch space Hpre), Hch.
    reflexivity. }
  exists (decodedReply (wrapperDoc pre post ch space attrs) root id).
  cbn [decodedReply Errors].
  rewrite (wrapper_rerooted pre post ch space Hpre attrs root Hin) in *.
  set (D := {| etree.docChild := pre ++ etree.toToken (etree.elt root) :: post |}) in *.
  split; [intros strict; rewrite Heq; eauto|].
  destruct (etree_facts.DocFindElements_any_depth D "//rpc-error" "rpc-error" eq_refl)
    as (_ & Hfound).
  split; [|split].
  - unfold decodeErrors. split.
    + intros Hnil p e Hl Ht.
      apply map_eq_nil in Hnil.
      assert (Hn : In {| etree.pos := List.length pre :: p; etree.elt := e |}
                      (etree.DocFindElements D "//rpc-error")).
      { apply Hfound. cbn [etree.pos etree.elt]. split; [discriminate|]. split; [|exact Ht].
        apply (lookup_single_root pre post (etree.elt root) _ e Hpre Hpost);
          [discriminate|]. exists p. auto. }
      rewrite Hnil in Hn. contradiction.
    + intros Hnone.
      destruct (etree.DocFindElements D "//rpc-error") as [|n l] eqn:Hl; [reflexivity|].
      exfalso. destruct (proj1 (Hfound n) (or_introl eq_refl)) as (Hp & Hlook & Ht).
      apply (lookup_single_root pre post (etree.elt root) _ _ Hpre Hpost Hp) in Hlook.
      destruct Hlook as (r & _ & Hr). exact (Hnone r _ Hr Ht).
  - intros Hnil strict. rewrite Heq, Hnil. reflexivity.
  - intros Hne. rewrite Heq. unfold classified. rewrite firstFailing_strict.
    destruct (decodeErrors D) as [|re l]; [contradiction|]. exists re. reflexivity.
Qed.

End SingleRoot.

Lemma call_fails_iff_payload_reports_witness :
  noElements []
  /\ exists reply,
       (forall strict, exists err,
          newRPCReply sampleReader rawData strict "ID" = Return (Some reply, err))
       /\ (Errors reply = [] <->
           forall p e,
             etree.lookup {| etree.Space := ""; etree.Tag := "data"; etree.Attrs := [];
                             etree.Child := [elem "x" [text "1"]] |} p = Some e ->
             etree.Tag e <> "rpc-error")
       /\ (Errors reply = [] ->
           forall strict, newRPCReply sampleReader rawData strict "ID"
                          = Return (Some reply, None))
       /\ (Errors reply <> [] ->
           exists re, newRPCReply sampleReader rawData true "ID"
                      = Return (Some reply, Some (RPCErr re))).
Proof.
  assert (H : noElements []) by constructor.
  split; [exact H|].
  apply (call_fails_iff_payload_reports [] [] [elem "data" [elem "x" [text "1"]]] "" H H
           sampleReader rawData
           [ {| etree.AttrSpace := ""; etree.AttrKey := "message-id"; etree.AttrValue := "ID" |} ]
           "ID"
           {| etree.pos := [0; 0];
              etree.elt := {| etree.Space := ""; etree.Tag := "data"; etree.Attrs := [];
                              etree.Child := [elem "x" [text "1"]] |} |}
           []); reflexivity.
Defined.

From Stdlib Require Import Sorted.

(** * The order of the reported errors *)

(** ** Document order

    The elements of a document in the order of their start tags. *)

Fixpoint preorderToken (p : etree.ptr) (t : etree.Token) : list etree.node :=
  match t with
  | etree.ElementToken s g a ch =>
      {| etree.pos := p;
         etree.elt := {| etree.Space := s; etree.Tag := g; etree.Attrs := a;
                         etree.Child := ch |} |}
      :: (fix children (i : nat) (l : list etree.Token) : list etree.node :=
            match l with
            | [] => []
            | x :: r => preorderToken (p ++ [i]) x ++ children (S i) r
            end) 0 ch
  | _ => []
  end.

Fixpoint preorderTokens (p : etree.ptr) (i : nat) (l : list etree.Token) : list etree.node :=
  match l with
  | [] => []
  | x :: r => preorderToken (p ++ [i]) x ++ preorderTokens p (S i) r
  end.

Definition documentOrder (d : etree.Document) : list etree.node :=
  preorderTokens [] 0 (etree.docChild d).

(** The reported errors of a document, decoded in document order. *)
Definition decodeErrorsInDocumentOrder (d : etree.Document) : list RPCError :=
  map (decodeRPCError d)
      (filter (fun n => String.eqb (etree.Tag (etree.elt n)) "rpc-error") (documentOrder d)).

(** ** The order of the search *)

Definition depth (n : etree.node) : nat := List.length (etree.pos n).

Definition shallowerFirst (a b : etree.node) : Prop := depth a <= depth b.

Lemma childNodes_depth n c : In c (etree.childNodes n) -> depth c = S (depth n).
Proof.
  intros H. apply etree_facts.childNodes_In in H. destruct H as (i & Hi & _).
  unfold depth. rewrite Hi, length_app. simpl. lia.
Qed.

Lemma descendants_depth q n :
  In n (etree.descendants q) -> exists m, In m q /\ depth m <= depth n.
Proof.
  intros H. apply etree_facts.descendants_In in H. destruct H as (m & s & Hm & Hp & _).
  exists m. split; [exact Hm|]. unfold depth. rewrite Hp, length_app. lia.
Qed.

Lemma StronglySorted_app {A} (R : A -> A -> Prop) l1 l2 :
  StronglySorted R l1 -> StronglySorted R l2 ->
  (forall a b, In a l1 -> In b l2 -> R a b) ->
  StronglySorted R (l1 ++ l2).
Proof.
  intros H1 H2 H12. induction H1 as [|a l1 Hl1 IH Ha]; simpl; [exact H2|].
  constructor.
  - apply IH. intros x y Hx Hy. apply H12; [right; exact Hx | exact Hy].
  - apply Forall_app. split; [exact Ha|].
    apply Forall_forall. intros y Hy. apply H12; [left; reflexivity | exact Hy].
Qed.

Lemma same_depth_sorted l k :
  (forall n, In n l -> depth n = k) -> StronglySorted shallowerFirst l.
Proof.
  induction l as [|a l IH]; intros H; constructor.
  - apply IH. intros n Hn. apply H. right. exact Hn.
  - apply Forall_forall. intros b Hb. unfold shallowerFirst.
    rewrite (H a (or_introl eq_refl)), (H b (or_intror Hb)). lia.
Qed.

(** The walk takes the elements level by level: if the queue holds the rest
    of one level followed by the start of the next, so does it at every
    later step. *)
Lemma descendants_sorted q :
  StronglySorted shallowerFirst q ->
  (forall a b, In a q -> In b q -> depth b <= S (depth a)) ->
  StronglySorted shallowerFirst (etree.descendants q).
Proof.
  funelim (etree.descendants q).
  - intros _ _. constructor.
  - rename H into IH. intros Hs Hb. simpl.
    inversion Hs as [|? ? Hq He]; subst. rewrite Forall_forall in He.
    constructor.
    + apply IH.
      * apply StronglySorted_app; [exact Hq | |].
        -- apply (same_depth_sorted _ (S (depth e))). intros n Hn.
           apply childNodes_depth. exact Hn.
        -- intros a b Ha Hc. unfold shallowerFirst.
           rewrite (childNodes_depth _ _ Hc).
           apply (Hb e a); [left; reflexivity | right; exact Ha].
      * intros a b Ha Hb'. apply in_app_or in Ha. apply in_app_or in Hb'.
        destruct Ha as [Ha|Ha]; destruct Hb' as [Hb'|Hb'].
        -- apply Hb; right; assumption.
        -- rewrite (childNodes_depth _ _ Hb'). specialize (He a Ha).
           unfold shallowerFirst in He. lia.
        -- rewrite (childNodes_depth _ _ Ha).
           specialize (Hb e b (or_introl eq_refl) (or_intror Hb')). lia.
        -- rewrite (childNodes_depth _ _ Ha), (childNodes_depth _ _ Hb'). lia.
    + apply Forall_forall. intros n Hn. apply descendants_depth in Hn.
      destruct Hn as (m & Hm & Hd). unfold shallowerFirst.
      apply in_app_or in Hm. destruct Hm as [Hm|Hm].
      * specialize (He m Hm). unfold shallowerFirst in He. lia.
      * rewrite (childNodes_depth _ _ Hm) in Hd. lia.
Qed.

Lemma candidates_sorted top space tag ds :
  StronglySorted shallowerFirst ds ->
  StronglySorted shallowerFirst
    (flat_map (etree.apply top (etree.selectChildrenByTag space tag)) ds).
Proof.
  induction 1 as [|d ds Hds IH Hd]; simpl; [constructor|].
  rewrite Forall_forall in Hd.
  assert (Hblock : forall n c,
            In c (filter (fun c => etree.spaceMatch space (etree.Space (etree.elt c))
                                   && String.eqb tag (etree.Tag (etree.elt c)))
                         (etree.childNodes n)) -> depth c = S (depth n)).
  { intros n c Hc. apply filter_In in Hc. apply childNodes_depth. exact (proj1 Hc). }
  apply StronglySorted_app; [|exact IH|].
  - apply (same_depth_sorted _ (S (depth d))). intros n Hn. exact (Hblock d n Hn).
  - intros a b Ha Hb'. apply in_flat_map in Hb'. destruct Hb' as (d' & Hd' & Hb').
    simpl in Hb'. unfold shallowerFirst.
    rewrite (Hblock d a Ha), (Hblock d' b Hb').
    specialize (Hd d' Hd'). unfold shallowerFirst in Hd. lia.
Qed.

(** A search for [//tag] from the document lists what it finds level by
    level: an element nearer the top comes before every deeper one. *)
Lemma DocFindElements_shallower_first d path tag :
  etree.MustCompilePath path
    = [etree.selectRoot; etree.selectDescendants; etree.selectChildrenByTag "" tag] ->
  StronglySorted shallowerFirst (etree.DocFindElements d path).
Proof.
  intros Hpath.
  unfold etree.DocFindElements, etree.FindElements, etree.FindElementsPath, etree.traverse.
  rewrite Hpath. cbn [etree.eval flat_map etree.apply app]. rewrite !app_nil_r.
  change {| etree.pos := []; etree.elt := etree.docElement d |} with (etree.docNode d).
  rewrite (etree_facts.addResults_NoDup _ []).
  - simpl. apply candidates_sorted. apply descendants_sorted.
    + repeat constructor.
    + intros a b [<-|[]] [<-|[]]. lia.
  - simpl. apply etree_facts.candidates_NoDup. apply etree_facts.descendants_NoDup.
    simpl. split; [intros q []|exact I].
Qed.

(** A reply whose results element holds an error inside a group and, after
    the group, an error of its own. *)
Definition rawDeep : string :=
  replyOpen "9" +++ "<results><group>" +++
  "<rpc-error><error-severity>error</error-severity><error-message>deep</error-message></rpc-error>" +++
  "</group>" +++
  "<rpc-error><error-severity>error</error-severity><error-message>shallow</error-message></rpc-error>" +++
  "</results></rpc-reply>".

Definition deepResults : etree.Token :=
  elem "results"
    [ elem "group"
        [ elem "rpc-error" [elem "error-severity" [text "error"];
                            elem "error-message" [text "deep"]] ];
      elem "rpc-error" [elem "error-severity" [text "error"];
                        elem "error-message" [text "shallow"]] ].

Definition docDeep : etree.Document :=
  {| etree.docChild := [replyElem "9" [deepResults]] |}.

Definition deepReader := tableReader [(rawDeep, docDeep)].

Definition deepReply : RPCReply :=
  {| Errors := [ mkError "error" "shallow"; mkError "error" "deep" ];
     Data := {| etree.docChild := [deepResults] |};
     Ok := false;
     ReplyMessageID := "9" |}.

Section SearchOrder.

Variable ReadFromBytes : etree.Document -> string -> etree.Document * option string.

(** C2, as the code has it: for every list of errors and every flag, the
    classification returns the first error of the list whose severity is
    the string error or, with the flag set, the first error of the list,
    and none when no entry qualifies; the error [newRPCReply] returns
    beside a reply is this classification of the reply's errors, so a reply
    whose severities all differ from error is returned without an error
    when the flag is off.  The list is in the order of the search for
    rpc-error over the re-rooted document, which goes level by level: an
    element nearer the top comes before every deeper one. *)
Theorem classification_in_search_order (errs : list RPCError) (strict : bool) :
  (forall re, firstFailing errs strict = Some re <->
     exists pre post,
       errs = pre ++ re :: post
       /\ (Severity re = "error" \/ strict = true)
       /\ Forall (fun x => Severity x <> "error" /\ strict = false) pre)
  /\ (firstFailing errs strict = None <->
      Forall (fun x => Severity x <> "error" /\ strict = false) errs)
  /\ (forall rawXML id reply err,
        newRPCReply ReadFromBytes rawXML strict id = Return (Some reply, err) ->
        Errors reply = errs ->
        err = option_map RPCErr (firstFailing errs strict)
        /\ (Forall (fun x => Severity x <> "error") errs -> strict = false -> err = None)
        /\ errs = map (decodeRPCError (Data reply))
                      (etree.DocFindElements (Data reply) "//rpc-error")
        /\ StronglySorted shallowerFirst
             (etree.DocFindElements (Data reply) "//rpc-error")).
Proof.
  split; [intros re; apply firstFailing_Some|].
  split; [apply firstFailing_None|].
  intros rawXML id reply err H Herrs.
  apply newRPCReply_returns in H.
  destruct H as (data & wrapper & root & rest & _ & _ & _ & Hreply & Herr).
  rewrite Herrs in Herr. unfold classified in Herr. split; [exact Herr|].
  split; [|split].
  - intros Hall Hstrict. rewrite Herr.
    replace (firstFailing errs strict) with (@None RPCError); [reflexivity|].
    symmetry. apply firstFailing_None.
    apply Forall_impl with (2 := Hall). auto.
  - rewrite <- Herrs, Hreply. reflexivity.
  - apply (DocFindElements_shallower_first _ "//rpc-error" "rpc-error"). reflexivity.
Qed.

End SearchOrder.

Lemma classification_in_search_order_witness :
  newRPCReply sampleReader rawResults false "7"
    = Return (Some resultsReply, Some (RPCErr (mkError "error" "second")))
  /\ Some (RPCErr (mkError "error" "second"))
     = option_map RPCErr (firstFailing resultsErrors false)
  /\ resultsErrors = map (decodeRPCError (Data resultsReply))
                         (etree.DocFindElements (Data resultsReply) "//rpc-error").
Proof.
  assert (H : newRPCReply sampleReader rawResults false "7"
              = Return (Some resultsReply, Some (RPCErr (mkError "error" "second"))))
    by reflexivity.
  split; [exact H|].
  destruct (proj2 (proj2 (classification_in_search_order sampleReader resultsErrors false))
              rawResults "7" resultsReply _ H eq_refl) as (Herr & _ & Hlist & _).
  split; [exact Herr | exact Hlist].
Defined.

(** C2 as stated fails: the error inside the group comes first in the
    document, but the search lists the error beside the group first, and
    that one is returned as the cause, under either setting of the flag. *)
Lemma classification_not_in_document_order :
  newRPCReply deepReader rawDeep false "9"
    = Return (Some deepReply, Some (RPCErr (mkError "error" "shallow")))
  /\ newRPCReply deepReader rawDeep true "9"
     = Return (Some deepReply, Some (RPCErr (mkError "error" "shallow")))
  /\ Errors deepReply = [ mkError "error" "shallow"; mkError "error" "deep" ]
  /\ decodeErrorsInDocumentOrder (Data deepReply)
     = [ mkError "error" "deep"; mkError "error" "shallow" ]
  /\ firstFailing (decodeErrorsInDocumentOrder (Data deepReply)) false
     = Some (mkError "error" "deep")
  /\ firstFailing (decodeErrorsInDocumentOrder (Data deepReply)) true
     = Some (mkError "error" "deep")
  /\ mkError "error" "deep" <> mkError "error" "shallow".
Proof.
  repeat split; try reflexivity. discriminate.
Qed.
